(** * Query-processing flowchart game: graph state, scoring and solution reveal

    A shallow embedding of [src/components/Queryflowchart.tsx].  The React
    component [FlowchartGame] keeps its graph in two state cells ([nodes],
    [edges]); its handlers ([onConnect], [addNode], [handleSubmit],
    [handleReset], [handleShowSolution]) are embedded as functions on an
    explicit [State] record.  Timers registered with [setTimeout] live in a
    queue inside that record and are fired by an explicit event loop.

    JavaScript numbers are IEEE binary64 values, embedded as Rocq's primitive
    floats, so that [correct / expectedFlow.length >= 0.7] and
    [((correct / expectedFlow.length) * 100).toFixed(1)] are computed with the
    same roundings as the program. *)

From Stdlib Require Import ZArith List Bool Lia.
From Stdlib Require Import Strings.String Strings.Ascii.
From Stdlib Require Import Numbers.DecimalString.
From Stdlib Require Import Numbers.Cyclic.Int63.Uint63.
From Stdlib Require Import Floats.PrimFloat Floats.FloatOps Floats.SpecFloat.
From stdpp Require Import base strings gmap.
Import ListNotations.

Local Open Scope string_scope.
Local Open Scope list_scope.

(** ** JavaScript numbers and their decimal renderings *)

Module JS.

(** A non-negative integer as a JavaScript number (exact below 2^53). *)
Definition of_Z (z : Z) : float := PrimFloat.of_uint63 (Uint63.of_Z z).
Definition of_nat (n : nat) : float := of_Z (Z.of_nat n).

(** Decimal digits of a non-negative integer, without leading zeros. *)
Definition digits (z : Z) : string :=
  NilZero.string_of_uint (N.to_uint (Z.to_N z)).

(** [Number.prototype.toFixed(1)], step "let n be an integer for which
    n / 10 - x is as close to zero as possible; if there are two such n,
    pick the larger n", for the magnitude [m * 2^e] of a finite double. *)
Definition tenths (m : positive) (e : Z) : Z :=
  if (0 <=? e)%Z
  then (10 * Z.pos m * 2 ^ e)%Z
  else ((20 * Z.pos m + 2 ^ (- e)) / 2 ^ (1 - e))%Z.

(** The digits of [n] with a point before the last one; a lone digit gets
    a leading zero ("if k <= f, prepend zeros"). *)
Definition point1 (n : Z) : string :=
  digits (n / 10) ++ "." ++ digits (n mod 10).

(** [x.toFixed(1)].  Faithful for every double below 10^21 in magnitude;
    from 10^21 on, JavaScript switches to exponent notation, which is
    not reproduced here (the game only renders values in [0, 100]). *)
Definition toFixed1 (x : float) : string :=
  match Prim2SF x with
  | S754_zero _ => "0.0"
  | S754_finite s m e =>
      (if s then "-" else "") ++ point1 (tenths m e)
  | S754_infinity s => if s then "-Infinity" else "Infinity"
  | S754_nan => "NaN"
  end.

(** Reading of an unsigned decimal literal [ddd] or [ddd.ddd]. *)
Definition digit_of (c : ascii) : option Z :=
  let n := Z.of_nat (nat_of_ascii c) in
  if ((48 <=? n) && (n <=? 57))%Z then Some (n - 48)%Z else None.

(** Reads digits off the front of [s] into the accumulator [acc], scaling
    [den] by ten per digit when [scale] is set; returns what is left. *)
Fixpoint read_digits (scale : bool) (s : string) (acc den : Z) (seen : bool)
  : Z * Z * bool * string :=
  match s with
  | EmptyString => (acc, den, seen, s)
  | String c s' =>
      match digit_of c with
      | Some d =>
          read_digits scale s' (10 * acc + d)%Z
                      (if scale then (10 * den)%Z else den) true
      | None => (acc, den, seen, s)
      end
  end.

(** [parseFloat(s)] on the strings [toFixed] produces for non-negative
    values: the longest prefix that is a decimal literal, converted to the
    nearest double.  The quotient of two exactly represented integers is
    correctly rounded, so this is the nearest double as long as the literal
    has at most 15 significant digits; a string without a leading digit
    gives NaN.  Signs, exponents and "Infinity" are not read. *)
Definition parseFloat (s : string) : float :=
  match read_digits false s 0%Z 1%Z false with
  | (ip, _, false, _) => PrimFloat.nan
  | (ip, _, true, String "."%char rest) =>
      match read_digits true rest ip 1%Z false with
      | (num, den, _, _) => PrimFloat.div (of_Z num) (of_Z den)
      end
  | (ip, _, true, _) => of_Z ip
  end.

End JS.

(** ** Reference model *)

(** Graph nodes carry their kind as the label string. *)
Definition Label := string.

Record NodeTemplate := { t_label : Label; t_description : string }.

Definition nodeTemplates : list NodeTemplate :=
  [ {| t_label := "User";
       t_description := "Initiates the query and receives final results" |};
    {| t_label := "Knowledge Base";
       t_description := "Structured data repository for information retrieval" |};
    {| t_label := "AI Engine (Chain)";
       t_description := "Orchestrates the query processing pipeline" |};
    {| t_label := "Retriever";
       t_description := "Fetches relevant information from knowledge base" |};
    {| t_label := "LLM Model";
       t_description := "Generates responses using language understanding" |};
    {| t_label := "Prompt Template";
       t_description := "Structures the input for consistent LLM processing" |};
    {| t_label := "Output/Results Formatted";
       t_description := "Final presentation-ready response to user" |};
    {| t_label := "Evaluation";
       t_description := "Assesses quality of generated responses" |};
    {| t_label := "API Endpoints";
       t_description := "System integration points for external applications" |};
    {| t_label := "Human Feedback";
       t_description := "User corrections to improve future responses" |} ].

(** The expected flow: eleven directed (source kind, target kind) pairs. *)
Definition expectedFlow : list (Label * Label) :=
  [ ("User", "Knowledge Base");
    ("Knowledge Base", "AI Engine (Chain)");
    ("AI Engine (Chain)", "Retriever");
    ("AI Engine (Chain)", "API Endpoints");
    ("Retriever", "LLM Model");
    ("LLM Model", "Prompt Template");
    ("Prompt Template", "Output/Results Formatted");
    ("Output/Results Formatted", "User");
    ("Output/Results Formatted", "Evaluation");
    ("Evaluation", "Human Feedback");
    ("Human Feedback", "Prompt Template") ].

(** ** Graph state *)

Record Position := { pos_x : float; pos_y : float }.

(** A React Flow node.  Its [type] is always ['default'] and its hover
    callbacks are determined by the label; neither is represented. *)
Record Node := { n_id : string; n_position : Position; n_label : Label }.

(** A React Flow edge.  Marker, animation flag and stroke style are
    presentation only and are not represented. *)
Record Edge := {
  e_id : string;
  e_source : string;
  e_target : string;
  e_sourceHandle : option string;
  e_targetHandle : option string
}.

(** What a drag between two handles hands to [onConnect]. *)
Record Connection := {
  c_source : option string;
  c_target : option string;
  c_sourceHandle : option string;
  c_targetHandle : option string
}.

Record Result := {
  correct : nat;
  total : nat;
  accuracy : string;
  feedback : string
}.

(** ** Component state, effects and timers *)

Inductive Sound := SoundConnect | SoundSuccess | SoundError.

(** Calls into the presentation layer, in the order they are made. *)
Inductive Effect :=
| Play (snd : Sound)
| Confetti
| FitView.

(** The two callbacks the component hands to [setTimeout], as data: the
    arrow function scheduled per solution edge (it captures [edge], the index
    [i] and [solutionEdges.length]) and the nested one that calls
    [fitView]. *)
Inductive Task :=
| RevealEdge (edge : Edge) (i : nat) (len : nat)
| FitViewTask.

(** A pending timer: the clock value (in ms) it becomes due at. *)
Record Timer := { due : Z; task : Task }.

Record State := {
  nodes : list Node;
  edges : list Edge;
  result : option Result;
  showSolution : bool;
  showResultOverlay : bool;
  now : Z;
  timers : list Timer;
  effects : list Effect
}.

Definition setNodes (v : list Node) (s : State) : State :=
  {| nodes := v; edges := edges s; result := result s;
     showSolution := showSolution s; showResultOverlay := showResultOverlay s;
     now := now s; timers := timers s; effects := effects s |}.

Definition setEdges (f : list Edge -> list Edge) (s : State) : State :=
  {| nodes := nodes s; edges := f (edges s); result := result s;
     showSolution := showSolution s; showResultOverlay := showResultOverlay s;
     now := now s; timers := timers s; effects := effects s |}.

Definition setResult (v : option Result) (s : State) : State :=
  {| nodes := nodes s; edges := edges s; result := v;
     showSolution := showSolution s; showResultOverlay := showResultOverlay s;
     now := now s; timers := timers s; effects := effects s |}.

Definition setShowSolution (v : bool) (s : State) : State :=
  {| nodes := nodes s; edges := edges s; result := result s;
     showSolution := v; showResultOverlay := showResultOverlay s;
     now := now s; timers := timers s; effects := effects s |}.

Definition setShowResultOverlay (v : bool) (s : State) : State :=
  {| nodes := nodes s; edges := edges s; result := result s;
     showSolution := showSolution s; showResultOverlay := v;
     now := now s; timers := timers s; effects := effects s |}.

Definition emit (e : Effect) (s : State) : State :=
  {| nodes := nodes s; edges := edges s; result := result s;
     showSolution := showSolution s; showResultOverlay := showResultOverlay s;
     now := now s; timers := timers s; effects := effects s ++ [e] |}.

(** [setTimeout(cb, delay)]: the callback becomes due [delay] ms from now and
    queues behind the timers registered before it. *)
Definition setTimeout (cb : Task) (delay : Z) (s : State) : State :=
  {| nodes := nodes s; edges := edges s; result := result s;
     showSolution := showSolution s; showResultOverlay := showResultOverlay s;
     now := now s;
     timers := timers s ++ [{| due := now s + delay; task := cb |}];
     effects := effects s |}.

(** The freshly mounted component. *)
Definition initial : State :=
  {| nodes := []; edges := []; result := None;
     showSolution := false; showResultOverlay := false;
     now := 0; timers := []; effects := [] |}.

(** ** React Flow's [addEdge]

    [onConnect] delegates to the library function [addEdge] of the
    [reactflow] package (version 11), which is not part of the repository;
    it is transcribed here from the library. *)

Module ReactFlow.

(** JavaScript falsiness of a handle: [null], [undefined] or [""]. *)
Definition falsy (h : option string) : bool :=
  match h with
  | None => true
  | Some v => String.eqb v ""
  end.

Definition handle_eqb (a b : option string) : bool :=
  match a, b with
  | Some x, Some y => String.eqb x y
  | None, None => true
  | _, _ => false
  end.

Definition getEdgeId (source target : string)
           (sourceHandle targetHandle : option string) : string :=
  "reactflow__edge-" ++ source ++ default "" sourceHandle
    ++ "-" ++ target ++ default "" targetHandle.

Definition connectionExists (edge : Edge) (eds : list Edge) : bool :=
  existsb (fun el =>
    String.eqb (e_source el) (e_source edge)
    && String.eqb (e_target el) (e_target edge)
    && (handle_eqb (e_sourceHandle el) (e_sourceHandle edge)
        || (falsy (e_sourceHandle el) && falsy (e_sourceHandle edge)))
    && (handle_eqb (e_targetHandle el) (e_targetHandle edge)
        || (falsy (e_targetHandle el) && falsy (e_targetHandle edge)))) eds.

(** [addEdge(connection, edges)]: a connection without source or target
    is dropped with a development warning, one that duplicates an
    existing edge is dropped silently, any other is appended under a
    generated id.  The function never sees the node collection. *)
Definition addEdge (conn : Connection) (eds : list Edge) : list Edge :=
  match c_source conn, c_target conn with
  | Some source, Some target =>
      if String.eqb source "" || String.eqb target "" then eds
      else
        let edge :=
          {| e_id := getEdgeId source target
                       (c_sourceHandle conn) (c_targetHandle conn);
             e_source := source;
             e_target := target;
             e_sourceHandle := c_sourceHandle conn;
             e_targetHandle := c_targetHandle conn |} in
        if connectionExists edge eds then eds else eds ++ [edge]
  | _, _ => eds
  end.

End ReactFlow.

(** ** Handlers *)

(** [onConnect]: plays the connect sound and hands the connection and the
    current edges to [addEdge]. *)
Definition onConnect (connection : Connection) (s : State) : State :=
  setEdges (fun eds => ReactFlow.addEdge connection eds)
           (emit (Play SoundConnect) s).

(** [addNode(label)].  The two sources of randomness are arguments: [id] is
    the value [uuidv4()] returns and [rnd] the value of [Math.random()]. *)
Definition addNode (id : string) (rnd : float) (label : Label) (s : State)
  : State :=
  let x := (250 + rnd * 400)%float in
  let y := (100 + JS.of_nat (length (nodes s)) * 80)%float in
  let newNode :=
    {| n_id := id; n_position := {| pos_x := x; pos_y := y |};
       n_label := label |} in
  setNodes (nodes s ++ [newNode]) s.

(** The body of the [expectedFlow.forEach] callback in [handleSubmit]:
    whether the first node labelled [srcLabel] and the first node labelled
    [tgtLabel] exist and some edge runs from the former to the latter. *)
Definition flowMatched (nds : list Node) (eds : list Edge)
           (p : Label * Label) : bool :=
  let '(srcLabel, tgtLabel) := p in
  match find (fun n => String.eqb (n_label n) srcLabel) nds,
        find (fun n => String.eqb (n_label n) tgtLabel) nds with
  | Some srcNode, Some tgtNode =>
      match find (fun e => String.eqb (e_source e) (n_id srcNode)
                           && String.eqb (e_target e) (n_id tgtNode)) eds with
      | Some _ => true
      | None => false
      end
  | _, _ => false
  end.

(** The counter [correct] after the loop over [flow]. *)
Definition countCorrect (flow : list (Label * Label))
           (nds : list Node) (eds : list Edge) : nat :=
  fold_left (fun correct p =>
               if flowMatched nds eds p then S correct else correct)
            flow 0%nat.

Definition feedbackExcellent : string :=
  "Excellent! You have nearly perfect understanding of the flow.".
Definition feedbackGood : string :=
  "Good job! You understand most of the key connections.".
Definition feedbackFair : string :=
  "Not bad! Review the solution to see what you missed.".
Definition feedbackNeedsWork : string :=
  "Keep trying! Review the steps and try again.".

#[local] Set Warnings "-inexact-float".

(** [handleSubmit]. *)
Definition handleSubmit (s : State) : State :=
  let correct := countCorrect expectedFlow (nodes s) (edges s) in
  let ratio := (JS.of_nat correct / JS.of_nat (length expectedFlow))%float in
  let s1 :=
    if (0.7 <=? ratio)%float
    then emit Confetti (emit (Play SoundSuccess) s)
    else emit (Play SoundError) s in
  let accuracy := JS.toFixed1 (ratio * 100)%float in
  let feedback :=
    if (90 <=? JS.parseFloat accuracy)%float then feedbackExcellent
    else if (70 <=? JS.parseFloat accuracy)%float then feedbackGood
    else if (50 <=? JS.parseFloat accuracy)%float then feedbackFair
    else feedbackNeedsWork in
  setShowResultOverlay true
    (setResult (Some {| correct := correct;
                        total := length expectedFlow;
                        accuracy := accuracy;
                        feedback := feedback |}) s1).

(** [handleReset].  It registers and clears no timer. *)
Definition handleReset (s : State) : State :=
  setShowResultOverlay false
    (setShowSolution false
       (setResult None
          (setEdges (fun _ => []) (setNodes [] s)))).

(** The fixed layout of the solution, keyed by label. *)
Definition nodePositions : gmap string Position :=
  list_to_map
    [ ("User", {| pos_x := 400; pos_y := 50 |});
      ("Knowledge Base", {| pos_x := 200; pos_y := 150 |});
      ("AI Engine (Chain)", {| pos_x := 400; pos_y := 250 |});
      ("Retriever", {| pos_x := 250; pos_y := 350 |});
      ("LLM Model", {| pos_x := 400; pos_y := 350 |});
      ("Prompt Template", {| pos_x := 400; pos_y := 450 |});
      ("Output/Results Formatted", {| pos_x := 400; pos_y := 550 |});
      ("Evaluation", {| pos_x := 250; pos_y := 650 |});
      ("Human Feedback", {| pos_x := 150; pos_y := 750 |});
      ("API Endpoints", {| pos_x := 550; pos_y := 350 |}) ]%float.

(** The three locals of [handleShowSolution] that the first loop fills,
    and how many times it has called [uuidv4()] so far. *)
Record Build := {
  nodeMap : gmap string Node;
  createdNodes : list Node;
  solutionEdges : list Edge;
  drawn : nat
}.

Section Reveal.

(** [uuid k] is what the [k]-th call of [uuidv4()] in one run of
    [handleShowSolution] returns. *)
Variable uuid : nat -> string.

(** [if (!nodeMap[label]) { ... nodeMap[label] = node;
    createdNodes.push(node) }].  For a label missing from the position
    table the source stores [undefined] as the position and goes on; a
    [Position] cannot hold that, so the embedding stops there with [None].
    Every label of [expectedFlow] has an entry, so the reveal never gets
    there. *)
Definition ensureNode (label : Label) (b : Build) : option Build :=
  match nodeMap b !! label with
  | Some _ => Some b
  | None =>
      match nodePositions !! label with
      | Some p =>
          let node :=
            {| n_id := uuid (drawn b); n_position := p; n_label := label |} in
          Some {| nodeMap := <[label := node]> (nodeMap b);
                  createdNodes := createdNodes b ++ [node];
                  solutionEdges := solutionEdges b;
                  drawn := S (drawn b) |}
      | None => None
      end
  end.

(** One turn of the first [forEach]: both endpoints are created if new,
    then the edge [e-<index>] between them is pushed. *)
Definition buildStep (index : nat) (p : Label * Label) (b : Build)
  : option Build :=
  let '(srcLabel, tgtLabel) := p in
  b1 ← ensureNode srcLabel b;
  b2 ← ensureNode tgtLabel b1;
  src ← nodeMap b2 !! srcLabel;
  tgt ← nodeMap b2 !! tgtLabel;
  Some {| nodeMap := nodeMap b2;
          createdNodes := createdNodes b2;
          solutionEdges :=
            solutionEdges b2 ++
              [{| e_id := "e-" ++ NilZero.string_of_uint (Nat.to_uint index);
                  e_source := n_id src;
                  e_target := n_id tgt;
                  e_sourceHandle := None;
                  e_targetHandle := None |}];
          drawn := drawn b2 |}.

Fixpoint buildFrom (index : nat) (flow : list (Label * Label)) (b : Build)
  : option Build :=
  match flow with
  | [] => Some b
  | p :: flow' => b' ← buildStep index p b; buildFrom (S index) flow' b'
  end.

Definition buildSolution : option Build :=
  buildFrom 0 expectedFlow
    {| nodeMap := ∅; createdNodes := []; solutionEdges := []; drawn := 0 |}.

(** The second [forEach]: one timer per solution edge, edge [i] after
    [i * 100] ms. *)
Fixpoint scheduleFrom (i len : nat) (eds : list Edge) (s : State) : State :=
  match eds with
  | [] => s
  | edge :: eds' =>
      scheduleFrom (S i) len eds'
        (setTimeout (RevealEdge edge i len) (Z.of_nat i * 100) s)
  end.

(** [handleShowSolution].  The [None] branch stands for a build that met
    a label without position, which the tables exclude. *)
Definition handleShowSolution (s : State) : State :=
  match buildSolution with
  | None => s
  | Some b =>
      let s1 :=
        setShowSolution true
          (setResult None
             (setEdges (fun _ => []) (setNodes (createdNodes b) s))) in
      scheduleFrom 0 (length (solutionEdges b)) (solutionEdges b) s1
  end.

End Reveal.

(** ** The event loop *)

(** What a timer callback does when it runs. *)
Definition runTask (t : Task) (s : State) : State :=
  match t with
  | RevealEdge edge i len =>
      let s1 := setEdges (fun prev => prev ++ [edge]) s in
      if (Z.of_nat i =? Z.of_nat len - 1)%Z
      then setTimeout FitViewTask 100 s1
      else s1
  | FitViewTask => emit FitView s
  end.

(** The pending timer that runs next, and the queue without it: the one due
    earliest, the one registered first among equals. *)
Fixpoint popTimer (q : list Timer) : option (Timer * list Timer) :=
  match q with
  | [] => None
  | t :: q' =>
      match popTimer q' with
      | None => Some (t, [])
      | Some (u, rest) =>
          if (due t <=? due u)%Z then Some (t, q') else Some (u, t :: rest)
      end
  end.

(** Running timer [t]: it leaves the queue, the clock reaches its due time
    (if it had not passed it already), its callback runs.  The clock is an
    idealisation: a browser runs a callback at or after its due time, never
    before; what the loop fixes is the order in which callbacks run. *)
Definition fire (t : Timer) (rest : list Timer) (s : State) : State :=
  runTask (task t)
    {| nodes := nodes s; edges := edges s; result := result s;
       showSolution := showSolution s;
       showResultOverlay := showResultOverlay s;
       now := Z.max (now s) (due t); timers := rest; effects := effects s |}.

(** The clock moves to [t] with no timer running. *)
Definition advance (t : Z) (s : State) : State :=
  {| nodes := nodes s; edges := edges s; result := result s;
     showSolution := showSolution s; showResultOverlay := showResultOverlay s;
     now := Z.max (now s) t; timers := timers s; effects := effects s |}.

(** At most [fuel] timers run, in order, as long as they are due by
    [deadline] ([None]: no deadline); then the clock moves to the
    deadline.  The second component lists what ran and when. *)
Fixpoint loop (fuel : nat) (deadline : option Z) (s : State)
  : State * list (Z * Task) :=
  let idle := (from_option (fun t => advance t s) s deadline, []) in
  match fuel with
  | O => idle
  | S fuel' =>
      match popTimer (timers s) with
      | None => idle
      | Some (t, rest) =>
          if from_option (fun d => (due t <=? d)%Z) true deadline
          then
            let s' := fire t rest s in
            let '(s'', tr) := loop fuel' deadline s' in
            (s'', (now s', task t) :: tr)
          else idle
      end
  end.

(** A bound on how many callbacks a queue can still run: a [RevealEdge]
    may register one [FitViewTask], which registers nothing. *)
Definition budget (q : list Timer) : nat :=
  fold_right (fun t n =>
                match task t with
                | RevealEdge _ _ _ => 2 + n
                | FitViewTask => 1 + n
                end) 0 q.

(** Letting time pass until the clock shows [t]. *)
Definition waitUntil (t : Z) (s : State) : State :=
  fst (loop (budget (timers s)) (Some t) s).

(** Letting every pending timer run. *)
Definition runToCompletion (s : State) : State :=
  fst (loop (budget (timers s)) None s).

Definition traceToCompletion (s : State) : list (Z * Task) :=
  snd (loop (budget (timers s)) None s).

(** ** The rest of the component *)

(** The adjacency table next to the expected flow: for each kind, the
    kinds it may point to. *)
Definition nodeConnectionRules : gmap string (list string) :=
  list_to_map
    [ ("User", ["Knowledge Base"]);
      ("Knowledge Base", ["AI Engine (Chain)"]);
      ("AI Engine (Chain)", ["Retriever"; "API Endpoints"]);
      ("Retriever", ["LLM Model"]);
      ("LLM Model", ["Prompt Template"]);
      ("Prompt Template", ["Output/Results Formatted"]);
      ("Output/Results Formatted", ["User"; "Evaluation"]);
      ("Evaluation", ["Human Feedback"]);
      ("Human Feedback", ["Prompt Template"]);
      ("API Endpoints", []) ].

(** The tooltip state cell [showNodeInfo]. *)
Record NodeInfo := {
  i_label : string;
  i_description : string;
  i_x : float;
  i_y : float
}.

(** The [onMouseEnter] callback stored in the data of a node labelled
    [label], as a function of the pointer position and of the current value
    of the tooltip cell: the tooltip is set only when the catalogue knows the
    label. *)
Definition onMouseEnter (label : Label) (clientX clientY : float)
           (showNodeInfo : option NodeInfo) : option NodeInfo :=
  match find (fun t => String.eqb (t_label t) label) nodeTemplates with
  | Some nodeTemplate =>
      Some {| i_x := (clientX + 10)%float;
              i_y := (clientY + 10)%float;
              i_label := t_label nodeTemplate;
              i_description := t_description nodeTemplate |}
  | None => showNodeInfo
  end.

(** The [onMouseLeave] callback. *)
Definition onMouseLeave (showNodeInfo : option NodeInfo) : option NodeInfo :=
  None.

(** The "Dismiss" button of the result overlay. *)
Definition dismiss (s : State) : State := setShowResultOverlay false s.

(** What the result overlay shows: it is rendered when
    [showResultOverlay && result]. *)
Definition resultOverlay (s : State) : option Result :=
  if showResultOverlay s then result s else None.

(** The colour class of the accuracy arc in the overlay. *)
Definition arcClass (r : Result) : string :=
  if (75 <=? JS.parseFloat (accuracy r))%float then "text-green-400"
  else if (50 <=? JS.parseFloat (accuracy r))%float then "text-yellow-400"
  else "text-red-400".

(** One turn of the event loop: the next pending timer, if any, runs. *)
Definition tick (s : State) : State :=
  match popTimer (timers s) with
  | Some (t, rest) => fire t rest s
  | None => s
  end.

(** What can happen to the mounted component: a palette button, a drag
    between two handles, one of the three sidebar buttons, the overlay's
    dismiss button, or a timer coming due. *)
Inductive Action :=
| AddNode (id : string) (rnd : float) (label : Label)
| Connect (connection : Connection)
| Submit
| Reset
| ShowSolution (uuid : nat -> string)
| Dismiss
| Tick.

Definition perform (a : Action) (s : State) : State :=
  match a with
  | AddNode id rnd label => addNode id rnd label s
  | Connect connection => onConnect connection s
  | Submit => handleSubmit s
  | Reset => handleReset s
  | ShowSolution uuid => handleShowSolution uuid s
  | Dismiss => dismiss s
  | Tick => tick s
  end.

(** The state after a sequence of actions. *)
Definition performAll (acts : list Action) (s : State) : State :=
  fold_left (fun s a => perform a s) acts s.

(** * Vocabulary of the properties

    Predicates and reference values the statements below are written with,
    and the example sessions they are tried on. *)

(** ** Scoring *)

Definition hasLabel (l : Label) (n : Node) : bool := String.eqb (n_label n) l.

Definition joins (a b : Node) (e : Edge) : bool :=
  String.eqb (e_source e) (n_id a) && String.eqb (e_target e) (n_id b).

(** [n] is the first node of [nds], in insertion order, labelled [l]. *)
Definition FirstLabelled (l : Label) (nds : list Node) (n : Node) : Prop :=
  exists pre post,
    nds = pre ++ n :: post /\ n_label n = l /\
    Forall (fun m => n_label m <> l) pre.

(** Some edge of [eds] runs from [a] to [b]. *)
Definition Linked (eds : list Edge) (a b : Node) : Prop :=
  exists e, In e eds /\ e_source e = n_id a /\ e_target e = n_id b.

(** The result record [handleSubmit] stores, as a function of the count. *)
Definition verdict (c : nat) : Result :=
  let ratio := (JS.of_nat c / JS.of_nat (length expectedFlow))%float in
  let accuracy := JS.toFixed1 (ratio * 100)%float in
  {| correct := c;
     total := length expectedFlow;
     accuracy := accuracy;
     feedback :=
       if (90 <=? JS.parseFloat accuracy)%float then feedbackExcellent
       else if (70 <=? JS.parseFloat accuracy)%float then feedbackGood
       else if (50 <=? JS.parseFloat accuracy)%float then feedbackFair
       else feedbackNeedsWork |}.

(** The effects [handleSubmit] triggers, as a function of the count. *)
Definition fanfare (c : nat) : list Effect :=
  if (0.7 <=? JS.of_nat c / JS.of_nat (length expectedFlow))%float
  then [Play SoundSuccess; Confetti]
  else [Play SoundError].

(** The percentage in tenths, rounded half up, in integer arithmetic. *)
Definition tenthsOf (c : nat) : Z := (2000 * Z.of_nat c + 11) / 22.

(** The tier boundaries on the rounded percentage. *)
Definition tierOf (tenths : Z) : string :=
  if (900 <=? tenths)%Z then feedbackExcellent
  else if (700 <=? tenths)%Z then feedbackGood
  else if (500 <=? tenths)%Z then feedbackFair
  else feedbackNeedsWork.

(** Whether [(a, b)] is a pair of the reference flow. *)
Definition flowb (a b : Label) : bool :=
  existsb (fun p => String.eqb (fst p) a && String.eqb (snd p) b) expectedFlow.

(** The specification's reading of "G contains the reference edge
    [(a, b)]": some node of kind [a] and some node of kind [b] are joined
    by an edge from the former to the latter. *)
Definition Connected (nds : list Node) (eds : list Edge) (a b : Label)
  : Prop :=
  exists n1 n2,
    In n1 nds /\ In n2 nds /\ n_label n1 = a /\ n_label n2 = b /\
    Linked eds n1 n2.

(** The same, as a test. *)
Definition connectedb (nds : list Node) (eds : list Edge) (a b : Label)
  : bool :=
  existsb (fun n1 =>
    hasLabel a n1 &&
    existsb (fun n2 => hasLabel b n2 && existsb (joins n1 n2) eds) nds) nds.

(** ** Timers and the reveal *)

(** The edges whose insertion is still pending in a queue. *)
Definition pendingEdges (q : list Timer) : list Edge :=
  flat_map (fun t => match task t with
                     | RevealEdge e _ _ => [e]
                     | FitViewTask => []
                     end) q.

(** The timers the second loop of [handleShowSolution] registers at clock
    value [t0] for the edges [eds], counting from index [i]. *)
Fixpoint revealTimers (t0 : Z) (i len : nat) (eds : list Edge) : list Timer :=
  match eds with
  | [] => []
  | e :: eds' =>
      {| due := t0 + Z.of_nat i * 100; task := RevealEdge e i len |}
        :: revealTimers t0 (S i) len eds'
  end.

(** What ran, and when, if the timers of [revealTimers] run in order. *)
Definition revealTrace (t0 : Z) (i len : nat) (eds : list Edge)
  : list (Z * Task) :=
  map (fun t => (due t, task t)) (revealTimers t0 i len eds).

(** The values the first loop of [handleShowSolution] builds: one node per
    label, in order of first appearance in the reference flow, the [k]-th
    carrying the [k]-th uuid drawn; and one edge per reference pair. *)
Definition revealedNode (uuid : nat -> string) (k : nat) (l : Label)
           (x y : float) : Node :=
  {| n_id := uuid k; n_position := {| pos_x := x; pos_y := y |};
     n_label := l |}.

Definition revealedNodes (uuid : nat -> string) : list Node :=
  [ revealedNode uuid 0 "User" 400 50;
    revealedNode uuid 1 "Knowledge Base" 200 150;
    revealedNode uuid 2 "AI Engine (Chain)" 400 250;
    revealedNode uuid 3 "Retriever" 250 350;
    revealedNode uuid 4 "API Endpoints" 550 350;
    revealedNode uuid 5 "LLM Model" 400 350;
    revealedNode uuid 6 "Prompt Template" 400 450;
    revealedNode uuid 7 "Output/Results Formatted" 400 550;
    revealedNode uuid 8 "Evaluation" 250 650;
    revealedNode uuid 9 "Human Feedback" 150 750 ]%float.

Definition revealedEdge (uuid : nat -> string) (id : string) (a b : nat)
  : Edge :=
  {| e_id := id; e_source := uuid a; e_target := uuid b;
     e_sourceHandle := None; e_targetHandle := None |}.

Definition revealedEdges (uuid : nat -> string) : list Edge :=
  [ revealedEdge uuid "e-0" 0 1;
    revealedEdge uuid "e-1" 1 2;
    revealedEdge uuid "e-2" 2 3;
    revealedEdge uuid "e-3" 2 4;
    revealedEdge uuid "e-4" 3 5;
    revealedEdge uuid "e-5" 5 6;
    revealedEdge uuid "e-6" 6 7;
    revealedEdge uuid "e-7" 7 0;
    revealedEdge uuid "e-8" 7 8;
    revealedEdge uuid "e-9" 8 9;
    revealedEdge uuid "e-10" 9 6 ].

(** Edge [e] runs from the node the scorer resolves [fst p] to, to the
    node it resolves [snd p] to. *)
Definition Realises (nds : list Node) (e : Edge) (p : Label * Label) : Prop :=
  exists srcNode tgtNode,
    find (fun n => String.eqb (n_label n) (fst p)) nds = Some srcNode /\
    find (fun n => String.eqb (n_label n) (snd p)) nds = Some tgtNode /\
    e_source e = n_id srcNode /\ e_target e = n_id tgtNode.

(** ** Sessions *)

(** An edge whose two endpoints are ids of nodes of [nds]. *)
Definition attached (nds : list Node) (e : Edge) : bool :=
  existsb (fun n => String.eqb (n_id n) (e_source e)) nds
  && existsb (fun n => String.eqb (n_id n) (e_target e)) nds.

(** The ids an action brings in are new: a node added by hand gets an id
    no node has yet, and the ten uuids a reveal draws differ from one
    another. *)
Definition FreshIds (a : Action) (s : State) : Prop :=
  match a with
  | AddNode id _ _ => ~ In id (map n_id (nodes s))
  | ShowSolution uuid => NoDup (map uuid (seq 0 10))
  | _ => True
  end.

(** Every action of the sequence brings in new ids when it happens. *)
Fixpoint AllFresh (acts : list Action) (s : State) : Prop :=
  match acts with
  | [] => True
  | a :: acts' => FreshIds a s /\ AllFresh acts' (perform a s)
  end.

(** How many [fitView] calls a queue still owes: one per pending
    [fitView] timer and one per pending insertion of a last edge. *)
Definition owed (q : list Timer) : nat :=
  fold_right (fun t n =>
                match task t with
                | RevealEdge _ i len =>
                    if (Z.of_nat i =? Z.of_nat len - 1)%Z then S n else n
                | FitViewTask => S n
                end) 0%nat q.

Definition fitViews (l : list Effect) : nat :=
  length (List.filter (fun e => match e with FitView => true | _ => false end) l).

Definition reveals (acts : list Action) : nat :=
  length (List.filter (fun a => match a with ShowSolution _ => true | _ => false end)
                      acts).

(** The kinds [a] points to in the expected flow, in flow order. *)
Definition successors (flow : list (Label * Label)) (a : Label) : list Label :=
  map snd (List.filter (fun p => String.eqb (fst p) a) flow).

(** The kinds a flow mentions, sources and targets. *)
Definition flowLabels (flow : list (Label * Label)) : list Label :=
  flat_map (fun p => [fst p; snd p]) flow.

(** What the first loop of [handleShowSolution] keeps true of its locals:
    [nodeMap] maps a label to the first (and only) created node with that
    label, the created nodes carry the uuids drawn so far, in order, and
    sit at their entry of the position table. *)
Definition BuildInv (uuid : nat -> string) (b : Build) : Prop :=
  (forall l, nodeMap b !! l
             = find (fun n => String.eqb (n_label n) l) (createdNodes b)) /\
  map n_id (createdNodes b) = map uuid (seq 0 (drawn b)) /\
  NoDup (map n_label (createdNodes b)) /\
  Forall (fun n => nodePositions !! n_label n = Some (n_position n))
         (createdNodes b).

(** The locals before the first turn of the loop. *)
Definition emptyBuild : Build :=
  {| nodeMap := ∅; createdNodes := []; solutionEdges := []; drawn := 0 |}.

(** The id of the [i]-th solution edge. *)
Definition edgeId (i : nat) : string :=
  "e-" ++ NilZero.string_of_uint (Nat.to_uint i).

(** The actions that edit the graph or let time pass, as opposed to the
    buttons that evaluate, reset, reveal or dismiss. *)
Definition isEdit (a : Action) : bool :=
  match a with
  | AddNode _ _ _ | Connect _ | Tick => true
  | Submit | Reset | ShowSolution _ | Dismiss => false
  end.

(** ** Order of callbacks *)

(** [Merge l1 l2 l]: [l] interleaves [l1] and [l2], keeping the order of
    each. *)
Inductive Merge {A : Type} : list A -> list A -> list A -> Prop :=
| Merge_nil : Merge [] [] []
| Merge_left x l1 l2 l : Merge l1 l2 l -> Merge (x :: l1) l2 (x :: l)
| Merge_right x l1 l2 l : Merge l1 l2 l -> Merge l1 (x :: l2) (x :: l).

(** The edges a sequence of callbacks inserts, in order. *)
Definition taskEdges (tasks : list Task) : list Edge :=
  flat_map (fun t => match t with
                     | RevealEdge e _ _ => [e]
                     | FitViewTask => []
                     end) tasks.

(** The callbacks that run, in order, when every pending timer runs. *)
Definition ranToCompletion (s : State) : list Task :=
  map snd (traceToCompletion s).

(** ** Example sessions *)

(** Ids for the examples: [demoUuid k] stands for the [k]-th uuid drawn. *)
Definition demoUuid (k : nat) : string :=
  "n" ++ NilZero.string_of_uint (Nat.to_uint k).

(** The user clicks every palette button once, top to bottom. *)
Definition addPalette (s : State) : State :=
  fold_left (fun s kt => addNode (demoUuid (fst kt)) 0.5 (t_label (snd kt)) s)
            (combine (seq 0 (length nodeTemplates)) nodeTemplates) s.

Definition palette : State := addPalette initial.

(** The user drags from the node labelled [a] to the node labelled [b],
    both taken among [among]. *)
Definition connectLabels (among : list Node) (a b : Label) (s : State)
  : State :=
  match find (hasLabel a) among, find (hasLabel b) among with
  | Some x, Some y =>
      onConnect {| c_source := Some (n_id x); c_target := Some (n_id y);
                   c_sourceHandle := None; c_targetHandle := None |} s
  | _, _ => s
  end.

(** The first [k] connections of the reference flow are drawn. *)
Definition wire (among : list Node) (k : nat) (s : State) : State :=
  fold_left (fun s p => connectLabels among (fst p) (snd p) s)
            (firstn k expectedFlow) s.

Definition attempt (k : nat) : State := wire (nodes palette) k palette.

(** A second "User" node was added before the palette nodes; the complete
    flow is then drawn between the palette nodes. *)
Definition shadowed : State :=
  wire (nodes palette) 11
       (addPalette (addNode "dup" 0.5 "User" initial)).

(** A session touching every handler: two nodes by hand, a connection, an
    evaluation, a reveal interrupted after three timers by a second reveal,
    and a reset. *)
Definition busySession : list Action :=
  [ AddNode "a" 0.25 "User"; AddNode "b" 0.75 "Knowledge Base";
    Connect {| c_source := Some "a"; c_target := Some "b";
               c_sourceHandle := None; c_targetHandle := None |};
    Submit; Dismiss; ShowSolution demoUuid; Tick; Tick; Tick;
    ShowSolution (fun k => demoUuid (10 + k)); Tick; Reset;
    AddNode "c" 0.5 "User" ]%float.

(** * Properties *)

(** ** Lists: first match and counting *)

Section ListFacts.

Context {A : Type}.
Implicit Types (p : A -> bool) (l : list A).

(** [l.find(p)] returns the first element satisfying [p]. *)
Lemma find_first p l x :
  find p l = Some x <->
  exists pre post,
    l = pre ++ x :: post /\ p x = true /\ Forall (fun y => p y = false) pre.
Proof.
  split.
  - induction l as [|a l IH]; cbn; [discriminate|].
    destruct (p a) eqn:Ha.
    + intros [= ->]. exists [], l. repeat split; auto.
    + intros H. destruct (IH H) as (pre & post & -> & Hx & Hpre).
      exists (a :: pre), post. repeat split; auto.
  - intros (pre & post & -> & Hx & Hpre).
    induction Hpre as [|a pre Ha _ IH]; cbn.
    + now rewrite Hx.
    + now rewrite Ha.
Qed.

Lemma find_is_Some p l :
  (exists x, In x l /\ p x = true) <-> (exists y, find p l = Some y).
Proof.
  split.
  - intros (x & Hin & Hx). destruct (find p l) eqn:E; [eauto|].
    now rewrite (find_none _ _ E x Hin) in Hx.
  - intros (y & Hy). exists y. now apply find_some in Hy.
Qed.

(** Appending an element that fails [p] does not change the search. *)
Lemma find_snoc_false p l x :
  p x = false -> find p (l ++ [x]) = find p l.
Proof.
  intros Hx. induction l as [|a l IH]; cbn.
  - now rewrite Hx.
  - now rewrite IH.
Qed.

Lemma count_fold p l (a : nat) :
  fold_left (fun c x => if p x then S c else c) l a
  = (a + length (List.filter p l))%nat.
Proof.
  revert a. induction l as [|x l IH]; intros a; cbn; [lia|].
  rewrite IH. destruct (p x); cbn; lia.
Qed.

Lemma filter_all p l :
  length (List.filter p l) = length l <-> Forall (fun x => p x = true) l.
Proof.
  induction l as [|x l IH]; cbn; [split; auto|].
  pose proof (List.filter_length_le p l) as Hle.
  destruct (p x) eqn:Hx; cbn.
  - rewrite Forall_cons_iff, <- IH. split; [intros [= ?]; auto|intros [_ ->]; auto].
  - split; [lia|]. rewrite Forall_cons_iff. intros [? _]. congruence.
Qed.

Lemma filter_ext_in p q l :
  (forall x, In x l -> p x = q x) -> List.filter p l = List.filter q l.
Proof.
  induction l as [|x l IH]; cbn; intros H; [reflexivity|].
  rewrite (H x), IH by auto. reflexivity.
Qed.

End ListFacts.

(** ** The scoring loop *)

Lemma find_label_first l nds n :
  find (fun m => String.eqb (n_label m) l) nds = Some n <-> FirstLabelled l nds n.
Proof.
  rewrite find_first. unfold FirstLabelled.
  split; intros (pre & post & -> & Hn & Hpre); exists pre, post;
    (split; [reflexivity|]); split.
  - now apply String.eqb_eq.
  - eapply List.Forall_impl; [|exact Hpre]. cbn. intros m. now rewrite String.eqb_neq.
  - now apply String.eqb_eq.
  - eapply List.Forall_impl; [|exact Hpre]. cbn. intros m. now rewrite String.eqb_neq.
Qed.

Lemma joins_true a b e :
  joins a b e = true <-> e_source e = n_id a /\ e_target e = n_id b.
Proof. unfold joins. now rewrite andb_true_iff, !String.eqb_eq. Qed.

(** What one turn of the scoring loop tests. *)
Lemma flowMatched_spec nds eds a b :
  flowMatched nds eds (a, b) = true <->
  exists srcNode tgtNode,
    FirstLabelled a nds srcNode /\ FirstLabelled b nds tgtNode /\
    Linked eds srcNode tgtNode.
Proof.
  unfold flowMatched, Linked. split.
  - destruct (find _ nds) as [srcNode|] eqn:Hs; [|discriminate].
    destruct (find (fun n => String.eqb (n_label n) b) nds) as [tgtNode|] eqn:Ht;
      [|discriminate].
    destruct (find _ eds) as [e|] eqn:He; [|discriminate]. intros _.
    apply find_some in He. destruct He as [Hin He].
    exists srcNode, tgtNode. rewrite <- !find_label_first.
    repeat split; auto. exists e. split; auto. now apply joins_true.
  - intros (srcNode & tgtNode & Hs & Ht & e & Hin & Hsrc & Htgt).
    apply find_label_first in Hs, Ht. rewrite Hs, Ht.
    destruct (proj1 (find_is_Some (joins srcNode tgtNode) eds)) as [y Hy].
    + exists e. split; auto. now apply joins_true.
    + unfold joins in Hy. now rewrite Hy.
Qed.

Lemma countCorrect_filter flow nds eds :
  countCorrect flow nds eds = length (List.filter (flowMatched nds eds) flow).
Proof. unfold countCorrect. now rewrite count_fold. Qed.

Lemma countCorrect_le flow nds eds :
  (countCorrect flow nds eds <= length flow)%nat.
Proof. rewrite countCorrect_filter. apply List.filter_length_le. Qed.

Lemma countCorrect_all flow nds eds :
  countCorrect flow nds eds = length flow <->
  forall p, In p flow -> flowMatched nds eds p = true.
Proof. now rewrite countCorrect_filter, filter_all, List.Forall_forall. Qed.

Lemma handleSubmit_result s :
  result (handleSubmit s)
  = Some (verdict (countCorrect expectedFlow (nodes s) (edges s))).
Proof. reflexivity. Qed.

Lemma handleSubmit_effects s :
  effects (handleSubmit s)
  = effects s ++ fanfare (countCorrect expectedFlow (nodes s) (edges s)).
Proof.
  unfold handleSubmit, fanfare.
  generalize (countCorrect expectedFlow (nodes s) (edges s)). intros c.
  cbv zeta. destruct (0.7 <=? _)%float;
    cbn [effects setShowResultOverlay setResult emit]; [|reflexivity].
  now rewrite <- app_assoc.
Qed.

Lemma handleSubmit_graph s :
  nodes (handleSubmit s) = nodes s /\ edges (handleSubmit s) = edges s /\
  timers (handleSubmit s) = timers s /\ now (handleSubmit s) = now s.
Proof.
  unfold handleSubmit.
  generalize (countCorrect expectedFlow (nodes s) (edges s)). intros c.
  cbv zeta. destruct (0.7 <=? _)%float; repeat split; reflexivity.
Qed.

(** The double-precision computation of [handleSubmit] agrees, on every
    count the loop can produce, with the exact rounded percentage and with
    the exact celebration threshold. *)
Lemma verdict_exact c :
  (c <= 11)%nat ->
  accuracy (verdict c) = JS.point1 (tenthsOf c) /\
  feedback (verdict c) = tierOf (tenthsOf c) /\
  fanfare c = if (7 * 11 <=? 10 * Z.of_nat c)%Z
              then [Play SoundSuccess; Confetti] else [Play SoundError].
Proof.
  intros H.
  do 12 (destruct c as [|c]; [vm_compute; auto|]).
  lia.
Qed.

(** Appending to the edges an edge that joins no pair of resolved nodes
    changes no test of the scoring loop. *)
Lemma stray_edge_flowMatched nds eds e a b :
  (forall srcNode tgtNode,
      find (fun n => String.eqb (n_label n) a) nds = Some srcNode ->
      find (fun n => String.eqb (n_label n) b) nds = Some tgtNode ->
      joins srcNode tgtNode e = false) ->
  flowMatched nds (eds ++ [e]) (a, b) = flowMatched nds eds (a, b).
Proof.
  intros H. unfold flowMatched.
  destruct (find _ nds) as [srcNode|] eqn:Hs; [|reflexivity].
  destruct (find (fun n => String.eqb (n_label n) b) nds) as [tgtNode|] eqn:Ht;
    [|reflexivity].
  specialize (H srcNode tgtNode eq_refl eq_refl).
  change (fun e0 => String.eqb (e_source e0) (n_id srcNode)
                    && String.eqb (e_target e0) (n_id tgtNode))
    with (joins srcNode tgtNode).
  now rewrite find_snoc_false.
Qed.

Lemma stray_edge_countCorrect flow nds eds e :
  (forall a b srcNode tgtNode,
      In (a, b) flow ->
      find (fun n => String.eqb (n_label n) a) nds = Some srcNode ->
      find (fun n => String.eqb (n_label n) b) nds = Some tgtNode ->
      joins srcNode tgtNode e = false) ->
  countCorrect flow nds (eds ++ [e]) = countCorrect flow nds eds.
Proof.
  intros H. rewrite !countCorrect_filter. f_equal.
  apply filter_ext_in. intros [a b] Hin.
  apply stray_edge_flowMatched. eauto.
Qed.

(** Distinct nodes of a collection with unique ids have distinct ids. *)
Lemma unique_id nds x y :
  NoDup (map n_id nds) -> In x nds -> In y nds -> n_id x = n_id y -> x = y.
Proof.
  induction nds as [|n nds IH]; cbn; [tauto|].
  intros Hnd [->|Hx] [->|Hy] Hid; inversion Hnd as [|? ? Hnotin Hnd']; subst;
    auto.
  - exfalso. apply Hnotin, list_elem_of_In. rewrite Hid. now apply in_map.
  - exfalso. apply Hnotin, list_elem_of_In. rewrite <- Hid. now apply in_map.
Qed.

Lemma find_label_found l nds n :
  find (fun m => String.eqb (n_label m) l) nds = Some n ->
  In n nds /\ n_label n = l.
Proof.
  intros H. apply find_some in H. now rewrite String.eqb_eq in H.
Qed.

(** What [onConnect] can do to the edges: nothing, or append one edge with
    the endpoints of the connection. *)
Lemma onConnect_edges conn s :
  nodes (onConnect conn s) = nodes s /\
  (edges (onConnect conn s) = edges s \/
   exists e, edges (onConnect conn s) = edges s ++ [e] /\
             c_source conn = Some (e_source e) /\
             c_target conn = Some (e_target e)).
Proof.
  split; [reflexivity|].
  unfold onConnect. cbn [edges setEdges emit]. unfold ReactFlow.addEdge.
  destruct (c_source conn) as [source|]; [|now left].
  destruct (c_target conn) as [target|]; [|now left].
  destruct (_ || _); [now left|].
  destruct (ReactFlow.connectionExists _ _); [now left|].
  right. eexists. split; [reflexivity|]. cbn. auto.
Qed.

Lemma flowb_In a b : In (a, b) expectedFlow -> flowb a b = true.
Proof.
  intros H. unfold flowb. apply existsb_exists. exists (a, b).
  split; [assumption|]. cbn. now rewrite !String.eqb_refl.
Qed.

(** The reference flow has no pair in both directions, and none from a
    kind to itself. *)
Lemma expectedFlow_one_way a b :
  In (a, b) expectedFlow -> In (b, a) expectedFlow -> False.
Proof.
  intros Hab Hba. apply flowb_In in Hba.
  assert (Hall : forallb (fun p => negb (flowb (snd p) (fst p))) expectedFlow
                 = true) by (vm_compute; reflexivity).
  rewrite forallb_forall in Hall. specialize (Hall _ Hab). cbn [fst snd] in Hall.
  now rewrite Hba in Hall.
Qed.

Lemma result_same_count s s' :
  countCorrect expectedFlow (nodes s') (edges s')
  = countCorrect expectedFlow (nodes s) (edges s) ->
  result (handleSubmit s') = result (handleSubmit s).
Proof. intros H. now rewrite !handleSubmit_result, H. Qed.

Lemma connectedb_sound nds eds a b :
  connectedb nds eds a b = true -> Connected nds eds a b.
Proof.
  unfold connectedb, Connected, Linked, hasLabel.
  intros H. apply existsb_exists in H. destruct H as (n1 & Hn1 & H).
  apply andb_true_iff in H. destruct H as [Ha H].
  apply existsb_exists in H. destruct H as (n2 & Hn2 & H).
  apply andb_true_iff in H. destruct H as [Hb H].
  apply existsb_exists in H. destruct H as (e & He & H).
  apply joins_true in H. apply String.eqb_eq in Ha, Hb.
  exists n1, n2. repeat split; auto. exists e. tauto.
Qed.

(** ** Properties of the scorer *)

(** C1.  For every graph state, [handleSubmit] stores a result whose
    accuracy is the percentage [correct / 11 * 100] rounded to one decimal
    and whose feedback follows the tier boundaries 90 / 70 / 50 on that
    rounded percentage.  A graph matching 8 of the 11 reference edges gets
    accuracy "72.7", the "Good" feedback and the success sound with
    confetti; one matching 7 of 11 gets "63.6", the "Fair" feedback and the
    error sound. *)
Theorem evaluate_tiers (s : State) :
  exists r,
    result (handleSubmit s) = Some r /\
    correct r = countCorrect expectedFlow (nodes s) (edges s) /\
    total r = 11%nat /\
    accuracy r = JS.point1 (tenthsOf (correct r)) /\
    feedback r = tierOf (tenthsOf (correct r)) /\
    (correct r = 8%nat ->
     accuracy r = "72.7" /\ feedback r = feedbackGood /\
     effects (handleSubmit s) = effects s ++ [Play SoundSuccess; Confetti]) /\
    (correct r = 7%nat ->
     accuracy r = "63.6" /\ feedback r = feedbackFair /\
     effects (handleSubmit s) = effects s ++ [Play SoundError]).
Proof.
  eexists. split; [apply handleSubmit_result|].
  rewrite handleSubmit_effects.
  pose proof (countCorrect_le expectedFlow (nodes s) (edges s)) as Hle.
  generalize dependent (countCorrect expectedFlow (nodes s) (edges s)).
  intros c Hle. change (length expectedFlow) with 11%nat in Hle.
  destruct (verdict_exact c Hle) as (Hacc & Hfb & Hfan).
  cbn [correct verdict total] in *.
  split; [reflexivity|]. split; [reflexivity|].
  split; [exact Hacc|]. split; [exact Hfb|].
  split; intros ->; (split; [|split]); vm_compute; reflexivity.
Qed.

(** The two boundary graphs of C1 exist: the palette with the first eight,
    respectively seven, reference connections drawn. *)
Lemma evaluate_tiers_boundaries :
  (exists r, result (handleSubmit (attempt 8)) = Some r /\
             correct r = 8%nat /\ accuracy r = "72.7" /\
             feedback r = feedbackGood /\
             effects (handleSubmit (attempt 8))
             = effects (attempt 8) ++ [Play SoundSuccess; Confetti]) /\
  (exists r, result (handleSubmit (attempt 7)) = Some r /\
             correct r = 7%nat /\ accuracy r = "63.6" /\
             feedback r = feedbackFair /\
             effects (handleSubmit (attempt 7))
             = effects (attempt 7) ++ [Play SoundError]).
Proof.
  split.
  - destruct (evaluate_tiers (attempt 8))
      as (r & Hr & Hc & _ & _ & _ & H8 & _).
    assert (Hc8 : correct r = 8%nat) by (rewrite Hc; vm_compute; reflexivity).
    destruct (H8 Hc8) as (? & ? & ?). exists r. auto.
  - destruct (evaluate_tiers (attempt 7))
      as (r & Hr & Hc & _ & _ & _ & _ & H7).
    assert (Hc7 : correct r = 7%nat) by (rewrite Hc; vm_compute; reflexivity).
    destruct (H7 Hc7) as (? & ? & ?). exists r. auto.
Defined.

(** C2, amended.  The matched count never exceeds the 11 expected edges, and
    it equals 11 exactly when, for every pair of the reference flow, the
    first node of the source kind and the first node of the target kind (in
    insertion order) both exist and some edge runs from the former to the
    latter. *)
Theorem matched_count_full_iff (s : State) :
  exists r,
    result (handleSubmit s) = Some r /\
    total r = 11%nat /\
    (correct r <= total r)%nat /\
    (correct r = total r <->
     forall a b, In (a, b) expectedFlow ->
       exists srcNode tgtNode,
         FirstLabelled a (nodes s) srcNode /\
         FirstLabelled b (nodes s) tgtNode /\
         Linked (edges s) srcNode tgtNode).
Proof.
  eexists. split; [apply handleSubmit_result|].
  cbn [total correct verdict]. split; [reflexivity|]. split.
  - apply countCorrect_le.
  - rewrite countCorrect_all. split.
    + intros H a b Hin. apply flowMatched_spec. auto.
    + intros H [a b] Hin. apply flowMatched_spec. auto.
Qed.

(** C2 as stated fails: in [shadowed] every reference pair is joined by an
    edge between nodes of the right kinds, yet only 9 of 11 are counted,
    because "User" resolves to the unconnected first "User" node. *)
Lemma matched_count_any_pair_fails :
  (forall a b, In (a, b) expectedFlow ->
               Connected (nodes shadowed) (edges shadowed) a b) /\
  (exists r, result (handleSubmit shadowed) = Some r /\
             correct r = 9%nat /\ total r = 11%nat).
Proof.
  split.
  - assert (H : forallb (fun p => connectedb (nodes shadowed) (edges shadowed)
                                             (fst p) (snd p)) expectedFlow
                = true) by (vm_compute; reflexivity).
    rewrite forallb_forall in H. intros a b Hin.
    apply connectedb_sound. exact (H (a, b) Hin).
  - eexists. split; [apply handleSubmit_result|].
    split; vm_compute; reflexivity.
Qed.

(** C7.  Let [(a, b)] be a reference pair that the scorer resolves to the
    nodes [srcNode] and [tgtNode] of a graph with unique node ids.  Drawing
    the connection backwards, from [tgtNode] to [srcNode], changes neither
    the test for [(a, b)] nor the result of the evaluation; the pair counts
    exactly when some edge has [srcNode]'s id as source and [tgtNode]'s id
    as target. *)
Theorem reverse_connection_not_counted
        (s : State) (conn : Connection) (a b : Label) (srcNode tgtNode : Node) :
  In (a, b) expectedFlow ->
  NoDup (map n_id (nodes s)) ->
  find (fun n => String.eqb (n_label n) a) (nodes s) = Some srcNode ->
  find (fun n => String.eqb (n_label n) b) (nodes s) = Some tgtNode ->
  c_source conn = Some (n_id tgtNode) ->
  c_target conn = Some (n_id srcNode) ->
  flowMatched (nodes (onConnect conn s)) (edges (onConnect conn s)) (a, b)
  = flowMatched (nodes s) (edges s) (a, b) /\
  result (handleSubmit (onConnect conn s)) = result (handleSubmit s) /\
  (flowMatched (nodes s) (edges s) (a, b) = true <->
   Linked (edges s) srcNode tgtNode).
Proof.
  intros Hin Hnd Hs Ht Hcs Hct.
  destruct (find_label_found _ _ _ Hs) as [Hsin Hsl].
  destruct (find_label_found _ _ _ Ht) as [Htin Htl].
  assert (Hstray : forall c d n1 n2 e,
             In (c, d) expectedFlow ->
             find (fun n => String.eqb (n_label n) c) (nodes s) = Some n1 ->
             find (fun n => String.eqb (n_label n) d) (nodes s) = Some n2 ->
             Some (n_id tgtNode) = Some (e_source e) ->
             Some (n_id srcNode) = Some (e_target e) ->
             joins n1 n2 e = false).
  { intros c d n1 n2 e Hcd H1 H2 [= He1] [= He2].
    destruct (joins n1 n2 e) eqn:Hj; [exfalso|reflexivity].
    apply joins_true in Hj. destruct Hj as [Hj1 Hj2].
    destruct (find_label_found _ _ _ H1) as [H1in H1l].
    destruct (find_label_found _ _ _ H2) as [H2in H2l].
    assert (n1 = tgtNode) by (apply (unique_id (nodes s)); congruence).
    assert (n2 = srcNode) by (apply (unique_id (nodes s)); congruence).
    subst n1 n2. apply (expectedFlow_one_way a b); congruence. }
  destruct (onConnect_edges conn s) as [Hn [He | (e & He & Hes & Het)]];
    rewrite Hn, He.
  - split; [reflexivity|]. split.
    + apply result_same_count. now rewrite Hn, He.
    + rewrite flowMatched_spec. split.
      * intros (x & y & Hx & Hy & HL).
        apply find_label_first in Hx, Hy. congruence.
      * intros HL. exists srcNode, tgtNode.
        now rewrite <- !find_label_first.
  - rewrite Hcs in Hes. rewrite Hct in Het. split.
    + apply stray_edge_flowMatched. intros n1 n2 H1 H2.
      now apply (Hstray a b).
    + split.
      * apply result_same_count. rewrite Hn, He.
        apply stray_edge_countCorrect. intros c d n1 n2 Hcd H1 H2.
        now apply (Hstray c d).
      * rewrite flowMatched_spec. split.
        -- intros (x & y & Hx & Hy & HL).
           apply find_label_first in Hx, Hy. congruence.
        -- intros HL. exists srcNode, tgtNode.
           now rewrite <- !find_label_first.
Qed.

(** C7 at a concrete graph: on the palette, with "User" to "Knowledge
    Base" already drawn, drawing "Knowledge Base" to "User" as well leaves
    the result at 1 of 11. *)
Lemma reverse_connection_not_counted_palette :
  let back := {| c_source := Some (demoUuid 1); c_target := Some (demoUuid 0);
                 c_sourceHandle := None; c_targetHandle := None |} in
  length (edges (onConnect back (attempt 1))) = 2%nat /\
  result (handleSubmit (onConnect back (attempt 1)))
  = result (handleSubmit (attempt 1)) /\
  (correct <$> result (handleSubmit (attempt 1))) = Some 1%nat.
Proof.
  intros back. split; [vm_compute; reflexivity|]. split.
  - refine (proj1 (proj2 (reverse_connection_not_counted
                            (attempt 1) back "User" "Knowledge Base"
                            _ _ _ _ _ _ _ _))).
    + vm_compute. auto.
    + apply (bool_decide_unpack _). vm_compute. exact I.
    + vm_compute. reflexivity.
    + vm_compute. reflexivity.
    + reflexivity.
    + reflexivity.
  - vm_compute. reflexivity.
Defined.

(** C8.  [handleSubmit] leaves the node and edge collections (and the
    pending timers) as they are, always stores a result, and that result is
    a function of the nodes and edges alone: evaluating again, or
    evaluating any state with the same graph, gives the same result. *)
Theorem evaluate_pure (s : State) :
  nodes (handleSubmit s) = nodes s /\
  edges (handleSubmit s) = edges s /\
  timers (handleSubmit s) = timers s /\
  (exists r, result (handleSubmit s) = Some r) /\
  result (handleSubmit (handleSubmit s)) = result (handleSubmit s) /\
  (forall s', nodes s' = nodes s -> edges s' = edges s ->
              result (handleSubmit s') = result (handleSubmit s)).
Proof.
  destruct (handleSubmit_graph s) as (Hn & He & Ht & _).
  split; [exact Hn|]. split; [exact He|]. split; [exact Ht|].
  split; [eexists; apply handleSubmit_result|]. split.
  - apply result_same_count. now rewrite Hn, He.
  - intros s' Hn' He'. apply result_same_count. now rewrite Hn', He'.
Qed.

(** C9.  The scorer resolves a kind to the first node with that label in
    insertion order.  So when [m] is a node of a graph with unique ids whose
    kind resolves to another node [first], a connection that starts or ends
    at [m] changes no result; and a pair [(a, b)] counts exactly when its
    two first nodes exist and are linked. *)
Theorem later_duplicate_not_counted
        (s : State) (conn : Connection) (m first : Node) :
  NoDup (map n_id (nodes s)) ->
  In m (nodes s) ->
  find (fun n => String.eqb (n_label n) (n_label m)) (nodes s) = Some first ->
  first <> m ->
  c_source conn = Some (n_id m) \/ c_target conn = Some (n_id m) ->
  FirstLabelled (n_label m) (nodes s) first /\
  result (handleSubmit (onConnect conn s)) = result (handleSubmit s) /\
  (forall a b,
      flowMatched (nodes s) (edges s) (a, b) = true <->
      exists srcNode tgtNode,
        FirstLabelled a (nodes s) srcNode /\
        FirstLabelled b (nodes s) tgtNode /\
        Linked (edges s) srcNode tgtNode).
Proof.
  intros Hnd Hm Hfirst Hne Hconn.
  split; [now apply find_label_first|].
  split; [|intros a b; apply flowMatched_spec].
  apply result_same_count.
  destruct (onConnect_edges conn s) as [Hn [He | (e & He & Hes & Het)]];
    rewrite Hn, He; [reflexivity|].
  apply stray_edge_countCorrect. intros a b n1 n2 _ H1 H2.
  destruct (joins n1 n2 e) eqn:Hj; [exfalso|reflexivity].
  apply joins_true in Hj. destruct Hj as [Hj1 Hj2].
  destruct (find_label_found _ _ _ H1) as [H1in H1l].
  destruct (find_label_found _ _ _ H2) as [H2in H2l].
  destruct Hconn as [Hc | Hc].
  - assert (n1 = m) by (apply (unique_id (nodes s)); congruence).
    subst n1. subst a. congruence.
  - assert (n2 = m) by (apply (unique_id (nodes s)); congruence).
    subst n2. subst b. congruence.
Qed.

(** C9 at a concrete graph: in [shadowed], the edge from the second
    "User" node to "Knowledge Base" is present, yet a further connection
    at that node leaves the result at 9 of 11. *)
Lemma later_duplicate_not_counted_shadowed :
  let again := {| c_source := Some (demoUuid 7); c_target := Some (demoUuid 0);
                  c_sourceHandle := Some "out"; c_targetHandle := None |} in
  length (edges (onConnect again shadowed)) = 12%nat /\
  result (handleSubmit (onConnect again shadowed))
  = result (handleSubmit shadowed) /\
  (correct <$> result (handleSubmit shadowed)) = Some 9%nat.
Proof.
  intros again. split; [vm_compute; reflexivity|]. split.
  - refine (proj1 (proj2 (later_duplicate_not_counted
                            shadowed again
                            {| n_id := demoUuid 0;
                               n_position := {| pos_x := 450; pos_y := 180 |};
                               n_label := "User" |} _ _ _ _ _ _))).
    + apply (bool_decide_unpack _). vm_compute. exact I.
    + vm_compute. auto.
    + vm_compute. reflexivity.
    + vm_compute. intros [=].
    + right. reflexivity.
  - vm_compute. reflexivity.
Defined.

(** C6, amended.  [onConnect] never looks at the node collection and never
    fails: it leaves the nodes as they are, the edges become what
    [addEdge] makes of the connection and the current edges, whatever the
    nodes are; a connection with non-empty source and target ids that no
    existing edge duplicates is appended as a new edge. *)
Theorem connect_never_checks_nodes (conn : Connection) (s : State) :
  nodes (onConnect conn s) = nodes s /\
  edges (onConnect conn s) = ReactFlow.addEdge conn (edges s) /\
  (forall nds, edges (onConnect conn (setNodes nds s))
               = edges (onConnect conn s)) /\
  (forall source target,
      c_source conn = Some source -> c_target conn = Some target ->
      source <> "" -> target <> "" ->
      let edge := {| e_id := ReactFlow.getEdgeId source target
                               (c_sourceHandle conn) (c_targetHandle conn);
                     e_source := source; e_target := target;
                     e_sourceHandle := c_sourceHandle conn;
                     e_targetHandle := c_targetHandle conn |} in
      ReactFlow.connectionExists edge (edges s) = false ->
      edges (onConnect conn s) = edges s ++ [edge]).
Proof.
  split; [reflexivity|]. split; [reflexivity|]. split; [reflexivity|].
  intros source target Hs Ht Hsne Htne edge Hex.
  unfold onConnect. cbn [edges setEdges emit]. unfold ReactFlow.addEdge.
  rewrite Hs, Ht.
  apply String.eqb_neq in Hsne, Htne. rewrite Hsne, Htne. cbn [orb].
  fold edge. now rewrite Hex.
Qed.

(** C6 as stated fails: with no node at all, a connection between two ids
    is accepted and its edge is added. *)
Lemma connect_absent_ids_adds_edge :
  nodes initial = [] /\
  edges (onConnect {| c_source := Some "ghost"; c_target := Some "phantom";
                      c_sourceHandle := None; c_targetHandle := None |}
                   initial)
  = [ {| e_id := "reactflow__edge-ghost-phantom";
         e_source := "ghost"; e_target := "phantom";
         e_sourceHandle := None; e_targetHandle := None |} ].
Proof. split; reflexivity. Qed.

(** ** The timer queue *)

Lemma popTimer_perm q t rest :
  popTimer q = Some (t, rest) -> q ≡ₚ t :: rest.
Proof.
  revert t rest. induction q as [|a q IH]; cbn; [discriminate|].
  intros t rest. destruct (popTimer q) as [[u r]|] eqn:E.
  - destruct (due a <=? due u)%Z; intros [= <- <-]; [reflexivity|].
    rewrite (IH u r eq_refl). apply perm_swap.
  - destruct q as [|b q]; [intros [= <- <-]; reflexivity|].
    cbn in E. destruct (popTimer q) as [[u r]|];
      [destruct (due b <=? due u)%Z|]; discriminate.
Qed.

Lemma popTimer_None q : popTimer q = None -> q = [].
Proof.
  destruct q as [|a q]; [reflexivity|]. cbn.
  destruct (popTimer q) as [[u r]|]; [destruct (due a <=? due u)%Z|];
    discriminate.
Qed.

(** The timer that runs next is due no later than any other. *)
Lemma popTimer_earliest q t rest :
  popTimer q = Some (t, rest) -> Forall (fun u => (due t <= due u)%Z) rest.
Proof.
  revert t rest. induction q as [|a q IH]; cbn; [discriminate|].
  intros t rest. destruct (popTimer q) as [[u r]|] eqn:E.
  - specialize (IH u r eq_refl).
    destruct (due a <=? due u)%Z eqn:Hle; intros [= <- <-].
    + apply Z.leb_le in Hle. apply popTimer_perm in E.
      rewrite E. constructor; [assumption|].
      eapply List.Forall_impl; [|exact IH]. cbn. intros; lia.
    + apply Z.leb_gt in Hle. constructor; [lia|assumption].
  - intros [= <- <-]. constructor.
Qed.

(** A timer at the head of the queue that is due no later than the others
    runs next. *)
Lemma popTimer_head t q :
  Forall (fun u => (due t <= due u)%Z) q -> popTimer (t :: q) = Some (t, q).
Proof.
  intros H. cbn. destruct (popTimer q) as [[u r]|] eqn:E.
  - apply popTimer_perm in E. rewrite E in H.
    apply Forall_cons_1 in H. destruct H as [H _].
    apply Z.leb_le in H. now rewrite H.
  - apply popTimer_None in E. now subst.
Qed.

Lemma budget_perm q q' : q ≡ₚ q' -> budget q = budget q'.
Proof.
  unfold budget.
  induction 1 as [|t q q' _ IH|t u q|q q' q'' _ IH1 _ IH2];
    cbn [fold_right].
  - reflexivity.
  - now rewrite IH.
  - destruct (task t), (task u); reflexivity.
  - congruence.
Qed.

Lemma budget_app q q' : budget (q ++ q') = (budget q + budget q')%nat.
Proof.
  unfold budget. induction q as [|t q IH]; cbn [fold_right app];
    [reflexivity|].
  rewrite IH. destruct (task t); reflexivity.
Qed.

Lemma budget_zero q : budget q = 0%nat -> q = [].
Proof. destruct q as [|t q]; [reflexivity|]. cbn. destruct (task t); lia. Qed.

Lemma pendingEdges_perm q q' : q ≡ₚ q' -> pendingEdges q ≡ₚ pendingEdges q'.
Proof. intros H. unfold pendingEdges. now rewrite H. Qed.

Lemma pendingEdges_app q q' :
  pendingEdges (q ++ q') = pendingEdges q ++ pendingEdges q'.
Proof. apply flat_map_app. Qed.

Lemma pendingEdges_revealTimers t0 i len eds :
  pendingEdges (revealTimers t0 i len eds) = eds.
Proof.
  revert i. induction eds as [|e eds IH]; intros i; cbn; [reflexivity|].
  now rewrite <- (IH (S i)) at 2.
Qed.

(** One turn of the event loop without deadline. *)
Lemma loop_step fuel s :
  loop (S fuel) None s =
  match popTimer (timers s) with
  | None => (s, [])
  | Some (t, rest) =>
      (fst (loop fuel None (fire t rest s)),
       (now (fire t rest s), task t) :: snd (loop fuel None (fire t rest s)))
  end.
Proof.
  cbn [loop from_option]. destruct (popTimer (timers s)) as [[t rest]|];
    [|reflexivity].
  now destruct (loop fuel None (fire t rest s)).
Qed.

(** What running one timer does to the state. *)
Lemma fire_spec t rest s :
  nodes (fire t rest s) = nodes s /\
  edges (fire t rest s) = edges s ++ pendingEdges [t] /\
  pendingEdges (timers (fire t rest s)) = pendingEdges rest /\
  (budget (timers (fire t rest s)) < budget (t :: rest))%nat.
Proof.
  destruct t as [d [e i len|]]; unfold fire, runTask; cbn [task due].
  - change (budget ({| due := d; task := RevealEdge e i len |} :: rest))
      with (2 + budget rest)%nat.
    destruct (Z.of_nat i =? Z.of_nat len - 1)%Z;
      cbn [nodes edges timers setEdges setTimeout].
    + rewrite pendingEdges_app, budget_app. cbn. rewrite app_nil_r.
      repeat split; lia.
    + repeat split; lia.
  - change (budget ({| due := d; task := FitViewTask |} :: rest))
      with (1 + budget rest)%nat.
    cbn [nodes edges timers emit pendingEdges flat_map task app].
    rewrite app_nil_r. repeat split; lia.
Qed.

(** No timer callback touches the nodes. *)
Lemma loop_nodes fuel deadline s :
  nodes (fst (loop fuel deadline s)) = nodes s.
Proof.
  revert s. induction fuel as [|fuel IH]; intros s; cbn [loop].
  - destruct deadline; reflexivity.
  - destruct (popTimer (timers s)) as [[t rest]|];
      [|destruct deadline; reflexivity].
    destruct (from_option _ true deadline); [|destruct deadline; reflexivity].
    specialize (IH (fire t rest s)).
    destruct (loop fuel deadline (fire t rest s)) as [s'' tr]. cbn in *.
    rewrite IH. apply fire_spec.
Qed.

(** With the budget of the queue as fuel, the loop empties the queue, and
    every pending edge insertion is applied: the edges afterwards are the
    edges before followed by the pending edges in some order. *)
Lemma loop_drains fuel s :
  (budget (timers s) <= fuel)%nat ->
  timers (fst (loop fuel None s)) = [] /\
  exists added, edges (fst (loop fuel None s)) = edges s ++ added /\
                added ≡ₚ pendingEdges (timers s).
Proof.
  revert s. induction fuel as [|fuel IH]; intros s Hb.
  - assert (timers s = []) as Hq by (apply budget_zero; lia).
    cbn. rewrite Hq. split; [reflexivity|].
    exists []. now rewrite app_nil_r.
  - rewrite loop_step. destruct (popTimer (timers s)) as [[t rest]|] eqn:E.
    + apply popTimer_perm in E.
      destruct (fire_spec t rest s) as (_ & He & Hp & Hlt).
      rewrite (budget_perm _ _ E) in Hb.
      destruct (IH (fire t rest s)) as (Hq & added & Hadd & Hperm); [lia|].
      cbn [fst]. split; [exact Hq|].
      exists (pendingEdges [t] ++ added). split.
      * now rewrite Hadd, He, app_assoc.
      * rewrite (pendingEdges_perm _ _ E), Hperm, Hp.
        change (t :: rest) with ([t] ++ rest).
        now rewrite pendingEdges_app.
    + apply popTimer_None in E. cbn [fst]. rewrite E. split; [reflexivity|].
      exists []. now rewrite app_nil_r.
Qed.

(** ** The solution reveal *)

Lemma buildSolution_value uuid :
  exists b, buildSolution uuid = Some b /\
            createdNodes b = revealedNodes uuid /\
            solutionEdges b = revealedEdges uuid.
Proof.
  assert (H : match buildSolution uuid with
              | Some b => createdNodes b = revealedNodes uuid /\
                          solutionEdges b = revealedEdges uuid
              | None => False
              end) by (vm_compute; auto).
  destruct (buildSolution uuid) as [b|]; [|contradiction].
  exists b. tauto.
Qed.

Lemma scheduleFrom_spec eds : forall i len s,
  nodes (scheduleFrom i len eds s) = nodes s /\
  edges (scheduleFrom i len eds s) = edges s /\
  result (scheduleFrom i len eds s) = result s /\
  showSolution (scheduleFrom i len eds s) = showSolution s /\
  now (scheduleFrom i len eds s) = now s /\
  effects (scheduleFrom i len eds s) = effects s /\
  timers (scheduleFrom i len eds s)
  = timers s ++ revealTimers (now s) i len eds.
Proof.
  induction eds as [|e eds IH]; intros i len s; cbn [scheduleFrom revealTimers].
  - rewrite app_nil_r. tauto.
  - destruct (IH (S i) len (setTimeout (RevealEdge e i len) (Z.of_nat i * 100) s))
      as (Hn & He & Hr & Hs & Hnow & Hf & Ht).
    rewrite Hn, He, Hr, Hs, Hnow, Hf, Ht. cbn. rewrite <- app_assoc.
    repeat split; reflexivity.
Qed.

(** The state right after [handleShowSolution] returns. *)
Lemma handleShowSolution_spec uuid s :
  let s1 := handleShowSolution uuid s in
  nodes s1 = revealedNodes uuid /\
  edges s1 = [] /\
  result s1 = None /\
  showSolution s1 = true /\
  now s1 = now s /\
  effects s1 = effects s /\
  timers s1 = timers s ++ revealTimers (now s) 0 11 (revealedEdges uuid).
Proof.
  unfold handleShowSolution.
  destruct (buildSolution_value uuid) as (b & -> & Hn & He).
  rewrite He, Hn. cbv zeta.
  change (length (revealedEdges uuid)) with 11%nat.
  match goal with
  | |- context [scheduleFrom 0 11 ?eds ?s0] =>
      destruct (scheduleFrom_spec eds 0 11 s0)
        as (H1 & H2 & H3 & H4 & H5 & H6 & H7)
  end.
  rewrite H1, H2, H3, H4, H5, H6, H7. repeat split; reflexivity.
Qed.

(** The revealed edges realise the reference flow, pair by pair, in order. *)
Lemma revealed_realise uuid :
  Forall2 (Realises (revealedNodes uuid)) (revealedEdges uuid) expectedFlow.
Proof.
  unfold revealedEdges, expectedFlow.
  repeat (constructor;
          [eexists; eexists; repeat split; cbn; reflexivity|]).
  constructor.
Qed.

(** A graph holding, for each reference pair, an edge that realises it
    scores the full count. *)
Lemma realised_full_count nds eds sol flow :
  Forall2 (Realises nds) sol flow ->
  (forall e, In e sol -> In e eds) ->
  countCorrect flow nds eds = length flow.
Proof.
  intros HF Hin. apply countCorrect_all.
  induction HF as [|e [a b] sol flow (x & y & Hx & Hy & Hs & Ht) _ IH];
    intros p Hp; [contradiction|].
  destruct Hp as [<-|Hp].
  - apply flowMatched_spec. exists x, y. cbn [fst snd] in *.
    rewrite <- !find_label_first. repeat split; auto.
    exists e. repeat split; auto. apply Hin. now left.
  - apply IH; auto. intros e' He'. apply Hin. now right.
Qed.

Lemma countCorrect_no_edges flow nds : countCorrect flow nds [] = 0%nat.
Proof.
  rewrite countCorrect_filter.
  replace (List.filter (flowMatched nds []) flow) with (@nil (Label * Label));
    [reflexivity|].
  induction flow as [|[a b] flow IH]; [reflexivity|]. cbn [List.filter].
  replace (flowMatched nds [] (a, b)) with false; [exact IH|].
  unfold flowMatched. destruct (find _ nds); [|reflexivity].
  destruct (find _ nds); reflexivity.
Qed.

Lemma revealTimers_later t0 i len eds d :
  (d <= t0 + Z.of_nat i * 100)%Z ->
  Forall (fun u => (d <= due u)%Z) (revealTimers t0 i len eds).
Proof.
  revert i. induction eds as [|e eds IH]; intros i Hd; cbn; constructor.
  - exact Hd.
  - apply IH. lia.
Qed.

(** From a queue holding exactly the timers of one reveal, the loop runs
    them in order, each at its due time, then [fitView] 100 ms after the
    last, and stops with an empty queue. *)
Lemma loop_reveal eds : forall i s fuel t0,
  eds <> [] ->
  timers s = revealTimers t0 i (i + length eds) eds ->
  (now s <= t0 + Z.of_nat i * 100)%Z ->
  (length eds + 1 <= fuel)%nat ->
  edges (fst (loop fuel None s)) = edges s ++ eds /\
  timers (fst (loop fuel None s)) = [] /\
  effects (fst (loop fuel None s)) = effects s ++ [FitView] /\
  now (fst (loop fuel None s)) = (t0 + Z.of_nat (i + length eds) * 100)%Z /\
  snd (loop fuel None s)
  = revealTrace t0 i (i + length eds) eds
      ++ [((t0 + Z.of_nat (i + length eds) * 100)%Z, FitViewTask)].
Proof.
  induction eds as [|e eds IH]; intros i s fuel t0 Hne Hq Hnow Hfuel;
    [congruence|].
  destruct fuel as [|fuel]; [cbn in Hfuel; lia|].
  rewrite loop_step, Hq. cbn [revealTimers].
  rewrite popTimer_head by (apply revealTimers_later; cbn [due]; lia).
  match goal with
  | |- context [loop fuel None ?x] => remember x as s1 eqn:Hs1
  end.
  unfold fire in Hs1. cbn [task due runTask] in Hs1.
  destruct eds as [|e' eds].
  - (* the last edge: its callback also registers the fitView timer *)
    cbn [length revealTimers] in *.
    replace (Z.of_nat i =? Z.of_nat (i + 1) - 1)%Z with true in Hs1
      by (symmetry; apply Z.eqb_eq; lia).
    destruct fuel as [|fuel]; [lia|]. rewrite loop_step.
    subst s1. cbn [timers setTimeout setEdges app popTimer].
    unfold fire. cbn [task due runTask].
    match goal with
    | |- context [loop fuel None ?x] =>
        replace (loop fuel None x) with (x, @nil (Z * Task))
          by (destruct fuel; reflexivity)
    end.
    cbn. do 3 (split; [reflexivity|]). split; [lia|].
    f_equal; [f_equal; lia|]. do 2 f_equal. lia.
  - (* an inner edge *)
    replace (Z.of_nat i =? Z.of_nat (i + length (e :: e' :: eds)) - 1)%Z
      with false in Hs1 by (symmetry; apply Z.eqb_neq; cbn [length]; lia).
    destruct (IH (S i) s1 fuel t0) as (He & Ht & Hf & Hn & Htr).
    + discriminate.
    + subst s1. cbn [timers setEdges]. f_equal. cbn [length]. lia.
    + subst s1. cbn [now setEdges]. lia.
    + cbn [length] in *. lia.
    + cbn [fst snd]. rewrite He, Ht, Hf, Hn, Htr.
      subst s1. cbn [edges effects now setEdges].
      replace (S i + length (e' :: eds))%nat
        with (i + length (e :: e' :: eds))%nat by (cbn [length]; lia).
      rewrite <- app_assoc. unfold revealTrace. cbn [revealTimers map due task].
      repeat split. cbn [app]. do 2 f_equal. lia.
Qed.

Lemma revealTimers_imap t0 len eds : forall i,
  revealTimers t0 i len eds
  = imap (fun k e => {| due := t0 + 100 * Z.of_nat (i + k);
                        task := RevealEdge e (i + k) len |}) eds.
Proof.
  induction eds as [|e eds IH]; intros i; cbn [revealTimers imap];
    [reflexivity|].
  rewrite (IH (S i)), Nat.add_0_r. f_equal.
  - f_equal. lia.
  - apply imap_ext. intros k x _. cbn. now rewrite !Nat.add_succ_r.
Qed.

Lemma revealTrace_imap t0 len eds : forall i,
  revealTrace t0 i len eds
  = imap (fun k e => ((t0 + 100 * Z.of_nat (i + k))%Z,
                      RevealEdge e (i + k) len)) eds.
Proof.
  unfold revealTrace.
  induction eds as [|e eds IH]; intros i; cbn [revealTimers imap map due task];
    [reflexivity|].
  rewrite (IH (S i)), Nat.add_0_r. f_equal.
  - f_equal. lia.
  - apply imap_ext. intros k x _. cbn. now rewrite !Nat.add_succ_r.
Qed.

(** While callbacks of inner edges run, the reveal advances edge by edge:
    after [k] of them the first [k] edges are in and the others pending. *)
Lemma loop_prefix k : forall eds i len s t0,
  timers s = revealTimers t0 i len eds ->
  (now s <= t0 + Z.of_nat i * 100)%Z ->
  (i + k < len)%nat ->
  (k <= length eds)%nat ->
  nodes (fst (loop k None s)) = nodes s /\
  edges (fst (loop k None s)) = edges s ++ firstn k eds /\
  timers (fst (loop k None s)) = revealTimers t0 (i + k) len (skipn k eds) /\
  effects (fst (loop k None s)) = effects s /\
  (now (fst (loop k None s)) <= t0 + Z.of_nat (i + k) * 100)%Z.
Proof.
  induction k as [|k IH]; intros eds i len s t0 Hq Hnow Hlen Hk.
  - cbn [loop from_option fst firstn skipn].
    rewrite Nat.add_0_r, app_nil_r. tauto.
  - destruct eds as [|e eds]; [cbn in Hk; lia|].
    rewrite loop_step, Hq. cbn [revealTimers].
    rewrite popTimer_head by (apply revealTimers_later; cbn [due]; lia).
    cbn [fst].
    match goal with
    | |- context [loop k None ?x] => remember x as s1 eqn:Hs1
    end.
    unfold fire in Hs1. cbn [task due runTask] in Hs1.
    replace (Z.of_nat i =? Z.of_nat len - 1)%Z with false in Hs1
      by (symmetry; apply Z.eqb_neq; lia).
    destruct (IH eds (S i) len s1 t0) as (Hn & He & Ht & Hf & Hw).
    + now subst s1.
    + subst s1. cbn [now setEdges]. lia.
    + lia.
    + cbn [length] in Hk. lia.
    + rewrite Hn, He, Ht, Hf.
      replace (S i + k)%nat with (i + S k)%nat in * by lia.
      subst s1. cbn [nodes edges effects setEdges firstn skipn].
      rewrite <- app_assoc. repeat split. exact Hw.
Qed.

(** ** Properties of the solution reveal *)

(** C3.  For every state the reveal starts from and every sequence of
    uuids, once all timers have run after [handleShowSolution], evaluating
    the graph gives 11 of 11, accuracy "100.0" and the "Excellent"
    feedback. *)
Theorem reveal_then_evaluate (uuid : nat -> string) (s : State) :
  let final := runToCompletion (handleShowSolution uuid s) in
  timers final = [] /\
  exists r,
    result (handleSubmit final) = Some r /\
    correct r = 11%nat /\ total r = 11%nat /\
    accuracy r = "100.0" /\ feedback r = feedbackExcellent.
Proof.
  intros final. subst final. unfold runToCompletion.
  destruct (handleShowSolution_spec uuid s) as (Hn & He & _ & _ & _ & _ & Ht).
  destruct (loop_drains _ (handleShowSolution uuid s) (le_n _))
    as (Hq & added & Hadd & Hperm).
  split; [exact Hq|].
  eexists. split; [apply handleSubmit_result|].
  rewrite loop_nodes, Hn, Hadd, He.
  rewrite (realised_full_count _ _ _ _ (revealed_realise uuid)).
  - repeat split; vm_compute; reflexivity.
  - intros e Hin. cbn [app].
    apply (Permutation_in e (Permutation_sym Hperm)).
    rewrite Ht, pendingEdges_app, pendingEdges_revealTimers.
    apply in_or_app. now right.
Qed.

(** C5, amended.  [handleReset] empties the node and edge collections at
    once but cancels no timer.  When a reveal started from an idle
    component is reset after [k] of its eleven edges have been inserted,
    the remaining insertions still run: once all timers have run, the graph
    has no nodes and holds exactly the [11 - k] edges of the abandoned
    reveal that were still pending, in reference order. *)
Theorem reset_keeps_pending_insertions
        (uuid : nat -> string) (s : State) (k : nat) :
  timers s = [] ->
  (k < 11)%nat ->
  let mid := fst (loop k None (handleShowSolution uuid s)) in
  let final := runToCompletion (handleReset mid) in
  edges mid = firstn k (revealedEdges uuid) /\
  nodes (handleReset mid) = [] /\
  edges (handleReset mid) = [] /\
  timers (handleReset mid) = timers mid /\
  pendingEdges (timers mid) = skipn k (revealedEdges uuid) /\
  nodes final = [] /\
  edges final = skipn k (revealedEdges uuid) /\
  length (edges final) = (11 - k)%nat /\
  timers final = [].
Proof.
  intros Hidle Hk mid final.
  destruct (handleShowSolution_spec uuid s)
    as (Hn & He & _ & _ & Hnow & _ & Ht).
  rewrite Hidle in Ht. cbn [app] in Ht.
  destruct (loop_prefix k (revealedEdges uuid) 0 11
                        (handleShowSolution uuid s) (now s))
    as (_ & Hme & Hmt & _ & Hmnow); [exact Ht|lia|lia|cbn; lia|].
  fold mid in Hme, Hmt, Hmnow. rewrite He in Hme. cbn [app Nat.add] in *.
  assert (Hlen : length (skipn k (revealedEdges uuid)) = (11 - k)%nat)
    by (rewrite length_skipn; reflexivity).
  split; [exact Hme|]. do 3 (split; [reflexivity|]).
  split; [rewrite Hmt; apply pendingEdges_revealTimers|].
  subst final. unfold runToCompletion. split; [apply loop_nodes|].
  destruct (loop_reveal (skipn k (revealedEdges uuid)) k (handleReset mid)
              (budget (timers (handleReset mid))) (now s))
    as (H1 & H2 & _).
  - intros Hnil. rewrite Hnil in Hlen. cbn in Hlen. lia.
  - change (timers (handleReset mid)) with (timers mid). rewrite Hmt.
    f_equal. rewrite Hlen. lia.
  - exact Hmnow.
  - change (timers (handleReset mid)) with (timers mid). rewrite Hmt.
    rewrite revealTimers_imap.
    assert (Hb : forall (f : nat -> Edge -> Timer) l,
               (forall i e, exists e' a b, task (f i e) = RevealEdge e' a b) ->
               budget (imap f l) = (2 * length l)%nat).
    { intros f l. revert f.
      induction l as [|x l IH]; intros f Hf; [reflexivity|].
      rewrite imap_cons.
      change (budget (f 0%nat x :: imap (f ∘ S) l))
        with (match task (f 0%nat x) with
              | RevealEdge _ _ _ => 2 + budget (imap (f ∘ S) l)
              | FitViewTask => 1 + budget (imap (f ∘ S) l)
              end)%nat.
      destruct (Hf 0%nat x) as (e' & a & b & ->).
      rewrite IH; [cbn [length]; lia|]. intros i e. apply Hf. }
    rewrite Hb; [lia|]. intros i e. cbn. eauto.
  - rewrite H1, H2. cbn [edges handleReset setShowResultOverlay
                           setShowSolution setResult setEdges app].
    repeat split. exact Hlen.
Qed.

(** C5 amended, at a concrete reveal: reset after four insertions; the
    other seven edges still arrive. *)
Lemma reset_keeps_pending_insertions_after_four :
  let mid := fst (loop 4 None (handleShowSolution demoUuid initial)) in
  nodes (runToCompletion (handleReset mid)) = [] /\
  edges (runToCompletion (handleReset mid))
  = skipn 4 (revealedEdges demoUuid) /\
  length (edges (runToCompletion (handleReset mid))) = 7%nat.
Proof.
  intros mid.
  destruct (reset_keeps_pending_insertions demoUuid initial 4)
    as (_ & _ & _ & _ & _ & Hn & He & Hl & _); [reflexivity|lia|].
  fold mid in Hn, He, Hl. auto.
Defined.

(** C5 as stated fails: a reveal starts on the freshly mounted component,
    reset is pressed 350 ms later, and at 5000 ms, long after the reveal
    would have ended, the graph has no nodes but seven edges. *)
Lemma reset_mid_reveal_leaves_edges :
  let mid := waitUntil 350 (handleShowSolution demoUuid initial) in
  let final := waitUntil 5000 (handleReset mid) in
  length (edges mid) = 4%nat /\
  nodes (handleReset mid) = [] /\ edges (handleReset mid) = [] /\
  now final = 5000%Z /\ timers final = [] /\
  nodes final = [] /\ length (edges final) = 7%nat.
Proof. vm_compute. repeat split. Qed.

(** C10.  Right after [handleShowSolution] returns, before any timer has
    run, the node collection holds exactly one node per kind, each at its
    entry of the position table, and the edge collection is empty; an
    evaluation at that moment gives 0 of 11, accuracy "0.0" and the
    "Keep trying" feedback. *)
Theorem evaluate_before_first_insertion (uuid : nat -> string) (s : State) :
  let s1 := handleShowSolution uuid s in
  edges s1 = [] /\
  length (nodes s1) = 10%nat /\
  map n_label (nodes s1) ≡ₚ map t_label nodeTemplates /\
  Forall (fun n => nodePositions !! n_label n = Some (n_position n))
         (nodes s1) /\
  length (pendingEdges (timers s1)) = (length (pendingEdges (timers s)) + 11)%nat /\
  exists r,
    result (handleSubmit s1) = Some r /\
    correct r = 0%nat /\ total r = 11%nat /\
    accuracy r = "0.0" /\ feedback r = feedbackNeedsWork /\
    effects (handleSubmit s1) = effects s ++ [Play SoundError].
Proof.
  intros s1. subst s1.
  destruct (handleShowSolution_spec uuid s)
    as (Hn & He & _ & _ & _ & Hf & Ht).
  rewrite Hn, He, Ht. split; [reflexivity|]. split; [reflexivity|].
  split; [apply (bool_decide_unpack _); vm_compute; exact I|].
  split; [repeat constructor|].
  split.
  - rewrite pendingEdges_app, length_app, pendingEdges_revealTimers.
    reflexivity.
  - eexists. split; [apply handleSubmit_result|].
    rewrite handleSubmit_effects, Hn, He, Hf, countCorrect_no_edges.
    repeat split; vm_compute; reflexivity.
Qed.

(** * Further properties *)

(** ** Evaluation by count *)

Lemma filter_length_mono {A} (p q : A -> bool) l :
  (forall x, In x l -> p x = true -> q x = true) ->
  (length (List.filter p l) <= length (List.filter q l))%nat.
Proof.
  induction l as [|x l IH]; cbn; intros H; [lia|].
  assert (IH' : (length (List.filter p l) <= length (List.filter q l))%nat)
    by (apply IH; auto).
  destruct (p x) eqn:Hp.
  - rewrite (H x) by auto. cbn. lia.
  - destruct (q x); cbn; lia.
Qed.

(** Flipping the test from false to true at one element of a list without
    repetition adds one to the count. *)
Lemma filter_length_flip {A} (p q : A -> bool) l x :
  NoDup l -> In x l -> p x = false -> q x = true ->
  (forall y, In y l -> y <> x -> q y = p y) ->
  length (List.filter q l) = S (length (List.filter p l)).
Proof.
  intros Hnd. induction Hnd as [|a l Hnotin Hnd IH]; cbn; [tauto|].
  intros [->|Hin] Hp Hq Hsame.
  - rewrite Hp, Hq. cbn. f_equal. f_equal. apply filter_ext_in.
    intros y Hy. apply Hsame; [now right|].
    intros ->. apply Hnotin. now apply list_elem_of_In.
  - rewrite (Hsame a) by
        (auto; intros ->; apply Hnotin; now apply list_elem_of_In).
    assert (IH' : length (List.filter q l) = S (length (List.filter p l)))
      by (apply IH; auto).
    destruct (p a); cbn; now rewrite IH'.
Qed.

Lemma find_mono_filter {A} (p q : A -> bool) l :
  (forall x, In x l -> p x = true -> q x = true) ->
  find p (List.filter q l) = find p l.
Proof.
  induction l as [|x l IH]; cbn; intros H; [reflexivity|].
  destruct (p x) eqn:Hp.
  - rewrite (H x) by auto. cbn. now rewrite Hp.
  - destruct (q x); cbn; [rewrite Hp|]; apply IH; auto.
Qed.

Lemma find_app_Some {A} (p : A -> bool) l l' x :
  find p l = Some x -> find p (l ++ l') = Some x.
Proof.
  induction l as [|a l IH]; cbn; [discriminate|].
  destruct (p a); auto.
Qed.

Lemma find_app_None {A} (p : A -> bool) l l' :
  find p l = None -> find p (l ++ l') = find p l'.
Proof.
  induction l as [|a l IH]; cbn; [reflexivity|].
  destruct (p a); [discriminate|auto].
Qed.

(** A reference pair that counts keeps counting when edges are added, or
    replaced by edges with the same endpoints. *)
Lemma flowMatched_mono_edges nds eds eds' p :
  (forall e, In e eds ->
             exists e', In e' eds' /\ e_source e' = e_source e /\
                        e_target e' = e_target e) ->
  flowMatched nds eds p = true -> flowMatched nds eds' p = true.
Proof.
  destruct p as [a b]. intros H. rewrite !flowMatched_spec.
  intros (x & y & Hx & Hy & e & Hin & Hs & Ht).
  destruct (H e Hin) as (e' & Hin' & Hs' & Ht').
  exists x, y. repeat split; auto. exists e'. repeat split; congruence.
Qed.

Lemma countCorrect_mono_edges flow nds eds eds' :
  (forall e, In e eds ->
             exists e', In e' eds' /\ e_source e' = e_source e /\
                        e_target e' = e_target e) ->
  (countCorrect flow nds eds <= countCorrect flow nds eds')%nat.
Proof.
  intros H. rewrite !countCorrect_filter. apply filter_length_mono.
  intros p _. now apply flowMatched_mono_edges.
Qed.

Lemma flowMatched_no_nodes eds p : flowMatched [] eds p = false.
Proof. now destruct p. Qed.

Lemma countCorrect_no_nodes flow eds : countCorrect flow [] eds = 0%nat.
Proof.
  rewrite countCorrect_filter.
  induction flow as [|p flow IH]; [reflexivity|].
  cbn [List.filter]. now rewrite flowMatched_no_nodes.
Qed.

(** The verdict, count by count. *)
Lemma verdict_by_count c :
  (c <= 11)%nat ->
  feedback (verdict c)
  = (if (10 <=? c)%nat then feedbackExcellent
     else if (8 <=? c)%nat then feedbackGood
     else if (6 <=? c)%nat then feedbackFair
     else feedbackNeedsWork) /\
  fanfare c = (if (8 <=? c)%nat then [Play SoundSuccess; Confetti]
               else [Play SoundError]) /\
  arcClass (verdict c)
  = (if (9 <=? c)%nat then "text-green-400"
     else if (6 <=? c)%nat then "text-yellow-400"
     else "text-red-400").
Proof.
  intros H.
  do 12 (destruct c as [|c]; [vm_compute; auto|]).
  lia.
Qed.

(** X1.  Whatever the graph, the feedback and the sound follow the number
    of matched pairs: "Excellent" from 10 of 11, "Good job" for 8 and
    9, "Not bad" for 6 and 7, "Keep trying" up to 5; the success sound
    and the confetti come exactly with 8 or more, that is, exactly with
    "Good job" or "Excellent", and the error sound otherwise. *)
Theorem feedback_by_count (s : State) :
  exists r,
    result (handleSubmit s) = Some r /\
    (correct r <= 11)%nat /\
    feedback r
    = (if (10 <=? correct r)%nat then feedbackExcellent
       else if (8 <=? correct r)%nat then feedbackGood
       else if (6 <=? correct r)%nat then feedbackFair
       else feedbackNeedsWork) /\
    effects (handleSubmit s)
    = effects s ++ (if (8 <=? correct r)%nat
                    then [Play SoundSuccess; Confetti]
                    else [Play SoundError]).
Proof.
  eexists. split; [apply handleSubmit_result|].
  rewrite handleSubmit_effects.
  pose proof (countCorrect_le expectedFlow (nodes s) (edges s)) as Hle.
  change (length expectedFlow) with 11%nat in Hle.
  destruct (verdict_by_count _ Hle) as (Hf & Hs & _).
  cbn [correct verdict]. rewrite Hs. split; [exact Hle|].
  split; [exact Hf|reflexivity].
Qed.

(** X2.  After an evaluation the overlay is shown with the stored result,
    and its arc is green from 9 matched pairs on, yellow for 6 to 8 and red
    up to 5; so a graph with 8 matched pairs gets the confetti and a
    yellow arc.  Dismissing hides the overlay and keeps the result. *)
Theorem overlay_after_submit (s : State) :
  exists r,
    resultOverlay (handleSubmit s) = Some r /\
    result (handleSubmit s) = Some r /\
    arcClass r
    = (if (9 <=? correct r)%nat then "text-green-400"
       else if (6 <=? correct r)%nat then "text-yellow-400"
       else "text-red-400") /\
    resultOverlay (dismiss (handleSubmit s)) = None /\
    result (dismiss (handleSubmit s)) = Some r.
Proof.
  eexists. split; [reflexivity|]. split; [apply handleSubmit_result|].
  pose proof (countCorrect_le expectedFlow (nodes s) (edges s)) as Hle.
  change (length expectedFlow) with 11%nat in Hle.
  destruct (verdict_by_count _ Hle) as (_ & _ & Ha).
  split; [exact Ha|]. split; reflexivity.
Qed.

(** ** Edges and the count *)

(** X3.  For two states with the same nodes: if every edge of the first
    has an edge with the same source and target in the second, the second
    scores at least as much; if this holds both ways the stored results are
    equal.  So edge ids, handles, order and repetitions never matter, and
    extra edges never hurt. *)
Theorem evaluate_monotone_in_edges (s s' : State) :
  nodes s' = nodes s ->
  (forall e, In e (edges s) ->
             exists e', In e' (edges s') /\ e_source e' = e_source e /\
                        e_target e' = e_target e) ->
  exists r r',
    result (handleSubmit s) = Some r /\
    result (handleSubmit s') = Some r' /\
    (correct r <= correct r')%nat /\
    ((forall e', In e' (edges s') ->
                 exists e, In e (edges s) /\ e_source e = e_source e' /\
                           e_target e = e_target e') ->
     r' = r).
Proof.
  intros Hn H. do 2 eexists.
  split; [apply handleSubmit_result|]. split; [apply handleSubmit_result|].
  cbn [correct verdict]. rewrite Hn. split.
  - now apply countCorrect_mono_edges.
  - intros H'. f_equal. apply Nat.le_antisymm;
      now apply countCorrect_mono_edges.
Qed.

(** X3 on the palette: the graph with five reference connections drawn
    scores at least as much as the one with three. *)
Lemma evaluate_monotone_in_edges_palette :
  exists r r',
    result (handleSubmit (attempt 3)) = Some r /\
    result (handleSubmit (attempt 5)) = Some r' /\
    (correct r <= correct r')%nat.
Proof.
  destruct (evaluate_monotone_in_edges (attempt 3) (attempt 5))
    as (r & r' & Hr & Hr' & Hle & _).
  - reflexivity.
  - intros e Hin. exists e. split; [|split; reflexivity].
    vm_compute in Hin. vm_compute. tauto.
  - exists r, r'. auto.
Defined.

(** X4.  Drawing a connection never lowers the count, never touches the
    nodes, and leaves the edges that were there in place, in order, with at
    most one edge added behind them. *)
Theorem connect_never_lowers (conn : Connection) (s : State) :
  nodes (onConnect conn s) = nodes s /\
  (exists added, edges (onConnect conn s) = edges s ++ added /\
                 (length added <= 1)%nat) /\
  exists r r',
    result (handleSubmit s) = Some r /\
    result (handleSubmit (onConnect conn s)) = Some r' /\
    (correct r <= correct r')%nat.
Proof.
  destruct (onConnect_edges conn s) as [Hn [He | (e & He & _)]].
  - split; [exact Hn|]. split.
    + exists []. rewrite app_nil_r. auto.
    + do 2 eexists. split; [apply handleSubmit_result|].
      split; [apply handleSubmit_result|].
      cbn [correct verdict]. rewrite Hn, He. lia.
  - split; [exact Hn|]. split.
    + exists [e]. auto.
    + do 2 eexists. split; [apply handleSubmit_result|].
      split; [apply handleSubmit_result|].
      cbn [correct verdict]. rewrite Hn, He.
      apply countCorrect_mono_edges. intros e0 Hin. exists e0.
      split; [apply in_or_app; now left|auto].
Qed.

(** X5.  Edges with an endpoint that is no node's id are ignored by the
    evaluation: removing them all changes no result.  In particular a
    graph without nodes scores 0 whatever its edges. *)
Theorem dangling_edges_ignored (s : State) :
  result (handleSubmit (setEdges (List.filter (attached (nodes s))) s))
  = result (handleSubmit s) /\
  (nodes s = [] ->
   exists r, result (handleSubmit s) = Some r /\ correct r = 0%nat).
Proof.
  split.
  - apply result_same_count. cbn [nodes edges setEdges].
    rewrite !countCorrect_filter. f_equal.
    apply filter_ext_in. intros [a b] _.
    unfold flowMatched.
    destruct (find _ (nodes s)) as [x|] eqn:Hx; [|reflexivity].
    destruct (find (fun n => String.eqb (n_label n) b) (nodes s))
      as [y|] eqn:Hy; [|reflexivity].
    rewrite find_mono_filter; [reflexivity|].
    intros e _ He. apply andb_true_iff in He. destruct He as [Hs Ht].
    apply String.eqb_eq in Hs, Ht.
    apply find_some in Hx, Hy. unfold attached.
    apply andb_true_iff. split; apply existsb_exists.
    + exists x. split; [tauto|]. rewrite Hs. apply String.eqb_refl.
    + exists y. split; [tauto|]. rewrite Ht. apply String.eqb_refl.
  - intros Hn. eexists. split; [apply handleSubmit_result|].
    cbn [correct verdict]. rewrite Hn. apply countCorrect_no_nodes.
Qed.

(** X6.  Connecting twice in a row with the same connection is the same
    for the edges as connecting once: the second attempt is dropped as a
    duplicate (or for the same missing endpoint as the first). *)
Theorem connect_twice (conn : Connection) (s : State) :
  edges (onConnect conn (onConnect conn s)) = edges (onConnect conn s) /\
  effects (onConnect conn (onConnect conn s))
  = effects s ++ [Play SoundConnect; Play SoundConnect].
Proof.
  split.
  - unfold onConnect. cbn [edges setEdges emit]. unfold ReactFlow.addEdge.
    destruct (c_source conn) as [source|]; [|reflexivity].
    destruct (c_target conn) as [target|]; [|reflexivity].
    destruct (_ || _); [reflexivity|].
    destruct (ReactFlow.connectionExists _ (edges s)) eqn:Hex;
      [now rewrite Hex|].
    match goal with
    | |- context [ReactFlow.connectionExists ?e (_ ++ [?e])] =>
        assert (Hdup : ReactFlow.connectionExists e (edges s ++ [e]) = true)
    end.
    { unfold ReactFlow.connectionExists. rewrite existsb_app. cbn.
      rewrite !String.eqb_refl. cbn.
      assert (Hh : forall h, ReactFlow.handle_eqb h h = true)
        by (intros [h|]; cbn; [apply String.eqb_refl|reflexivity]).
      rewrite !Hh. cbn. apply orb_true_r. }
    now rewrite Hdup.
  - unfold onConnect. cbn [effects setEdges emit].
    now rewrite <- app_assoc.
Qed.

Lemma expectedFlow_NoDup : NoDup expectedFlow.
Proof. apply (bool_decide_unpack _). vm_compute. exact I. Qed.

(** An edge between the nodes two kinds resolve to can only serve the pair
    of these two kinds. *)
Lemma forward_edge_elsewhere nds eds e a b srcNode tgtNode c d :
  NoDup (map n_id nds) ->
  find (fun n => String.eqb (n_label n) a) nds = Some srcNode ->
  find (fun n => String.eqb (n_label n) b) nds = Some tgtNode ->
  e_source e = n_id srcNode -> e_target e = n_id tgtNode ->
  (c, d) <> (a, b) ->
  flowMatched nds (eds ++ [e]) (c, d) = flowMatched nds eds (c, d).
Proof.
  intros Hnd Hs Ht Hes Het Hne. apply stray_edge_flowMatched.
  intros n1 n2 H1 H2. destruct (joins n1 n2 e) eqn:Hj; [exfalso|reflexivity].
  apply joins_true in Hj. destruct Hj as [Hj1 Hj2].
  destruct (find_label_found _ _ _ Hs) as [Hsin Hsl].
  destruct (find_label_found _ _ _ Ht) as [Htin Htl].
  destruct (find_label_found _ _ _ H1) as [H1in H1l].
  destruct (find_label_found _ _ _ H2) as [H2in H2l].
  assert (n1 = srcNode) by (apply (unique_id nds); congruence).
  assert (n2 = tgtNode) by (apply (unique_id nds); congruence).
  apply Hne. congruence.
Qed.

(** X7.  In a graph with unique node ids, drawing a reference pair's
    connection between the two nodes its kinds resolve to (both with a
    non-empty id) makes the pair count, and raises the count by exactly one
    if the pair did not count before and not at all if it did. *)
Theorem forward_connection_counts
        (s : State) (conn : Connection) (a b : Label) (srcNode tgtNode : Node) :
  In (a, b) expectedFlow ->
  NoDup (map n_id (nodes s)) ->
  find (fun n => String.eqb (n_label n) a) (nodes s) = Some srcNode ->
  find (fun n => String.eqb (n_label n) b) (nodes s) = Some tgtNode ->
  c_source conn = Some (n_id srcNode) ->
  c_target conn = Some (n_id tgtNode) ->
  n_id srcNode <> "" -> n_id tgtNode <> "" ->
  flowMatched (nodes (onConnect conn s)) (edges (onConnect conn s)) (a, b)
  = true /\
  exists r r',
    result (handleSubmit s) = Some r /\
    result (handleSubmit (onConnect conn s)) = Some r' /\
    correct r'
    = (correct r
       + (if flowMatched (nodes s) (edges s) (a, b) then 0 else 1))%nat.
Proof.
  intros Hin Hnd Hs Ht Hcs Hct Hsne Htne.
  assert (Hedges :
            (Linked (edges s) srcNode tgtNode /\
             edges (onConnect conn s) = edges s) \/
            (exists e, edges (onConnect conn s) = edges s ++ [e] /\
                       e_source e = n_id srcNode /\ e_target e = n_id tgtNode)).
  { unfold onConnect. cbn [edges setEdges emit]. unfold ReactFlow.addEdge.
    rewrite Hcs, Hct.
    apply String.eqb_neq in Hsne, Htne. rewrite Hsne, Htne. cbn [orb].
    destruct (ReactFlow.connectionExists _ _) eqn:Hex.
    - left. split; [|reflexivity].
      unfold ReactFlow.connectionExists in Hex.
      apply existsb_exists in Hex. destruct Hex as (el & Hel & Hex).
      cbn in Hex. rewrite !andb_true_iff, !String.eqb_eq in Hex.
      exists el. tauto.
    - right. eexists. split; [reflexivity|]. cbn. auto. }
  assert (Hlinked : forall eds, Linked eds srcNode tgtNode ->
                                flowMatched (nodes s) eds (a, b) = true).
  { intros eds HL. apply flowMatched_spec. exists srcNode, tgtNode.
    now rewrite <- !find_label_first. }
  change (nodes (onConnect conn s)) with (nodes s).
  destruct Hedges as [[HL He] | (e & He & Hes & Het)]; rewrite He.
  - split; [now apply Hlinked|].
    do 2 eexists. split; [apply handleSubmit_result|].
    split; [apply handleSubmit_result|].
    cbn [correct verdict]. change (nodes (onConnect conn s)) with (nodes s).
    rewrite He, (Hlinked _ HL). lia.
  - assert (Hnew : flowMatched (nodes s) (edges s ++ [e]) (a, b) = true).
    { apply Hlinked. exists e. repeat split; auto.
      apply in_or_app. right. now left. }
    split; [exact Hnew|].
    do 2 eexists. split; [apply handleSubmit_result|].
    split; [apply handleSubmit_result|].
    cbn [correct verdict]. change (nodes (onConnect conn s)) with (nodes s).
    rewrite He, !countCorrect_filter.
    destruct (flowMatched (nodes s) (edges s) (a, b)) eqn:Hold.
    + rewrite Nat.add_0_r. f_equal. apply filter_ext_in. intros [c d] _.
      destruct (decide ((c, d) = (a, b))) as [[= -> ->]|Hne];
        [congruence|].
      now apply (forward_edge_elsewhere _ _ _ a b srcNode tgtNode).
    + rewrite Nat.add_1_r.
      apply (filter_length_flip _ _ _ (a, b));
        auto using expectedFlow_NoDup.
      intros [c d] _ Hne.
      now apply (forward_edge_elsewhere _ _ _ a b srcNode tgtNode).
Qed.

(** X7 on the palette: with three connections drawn, drawing the fourth
    reference connection raises the count from 3 to 4. *)
Lemma forward_connection_counts_palette :
  let fourth := {| c_source := Some (demoUuid 2); c_target := Some (demoUuid 8);
                   c_sourceHandle := None; c_targetHandle := None |} in
  exists r r',
    result (handleSubmit (attempt 3)) = Some r /\
    result (handleSubmit (onConnect fourth (attempt 3))) = Some r' /\
    correct r = 3%nat /\ correct r' = 4%nat.
Proof.
  intros fourth.
  destruct (forward_connection_counts
              (attempt 3) fourth "AI Engine (Chain)" "API Endpoints"
              {| n_id := demoUuid 2;
                 n_position := {| pos_x := 450; pos_y := 260 |};
                 n_label := "AI Engine (Chain)" |}
              {| n_id := demoUuid 8;
                 n_position := {| pos_x := 450; pos_y := 740 |};
                 n_label := "API Endpoints" |})
    as (_ & r & r' & Hr & Hr' & Hc).
  - vm_compute. tauto.
  - apply (bool_decide_unpack _). vm_compute. exact I.
  - vm_compute. reflexivity.
  - vm_compute. reflexivity.
  - reflexivity.
  - reflexivity.
  - vm_compute. discriminate.
  - vm_compute. discriminate.
  - exists r, r'. split; [exact Hr|]. split; [exact Hr'|].
    assert (H3 : correct r = 3%nat).
    { rewrite handleSubmit_result in Hr. injection Hr as <-.
      vm_compute. reflexivity. }
    split; [exact H3|]. rewrite Hc, H3. vm_compute. reflexivity.
Defined.

(** ** Adding nodes *)

Lemma flowMatched_more_nodes nds n eds p :
  flowMatched nds eds p = true -> flowMatched (nds ++ [n]) eds p = true.
Proof.
  destruct p as [a b]. unfold flowMatched.
  destruct (find _ nds) as [x|] eqn:Hx; [|discriminate].
  destruct (find (fun m => String.eqb (n_label m) b) nds) as [y|] eqn:Hy;
    [|discriminate].
  now rewrite (find_app_Some _ _ _ _ Hx), (find_app_Some _ _ _ _ Hy).
Qed.

(** X8.  Adding a node appends it behind the nodes that were there, leaves
    the edges and the pending timers alone, and never lowers the count. *)
Theorem addNode_never_lowers (id : string) (rnd : float) (label : Label)
        (s : State) :
  (exists n, nodes (addNode id rnd label s) = nodes s ++ [n] /\
             n_id n = id /\ n_label n = label) /\
  edges (addNode id rnd label s) = edges s /\
  timers (addNode id rnd label s) = timers s /\
  exists r r',
    result (handleSubmit s) = Some r /\
    result (handleSubmit (addNode id rnd label s)) = Some r' /\
    (correct r <= correct r')%nat.
Proof.
  split; [eexists; repeat split|]. do 2 (split; [reflexivity|]).
  do 2 eexists. split; [apply handleSubmit_result|].
  split; [apply handleSubmit_result|].
  cbn [correct verdict]. rewrite !countCorrect_filter.
  apply filter_length_mono. intros p _.
  apply flowMatched_more_nodes.
Qed.

(** X9.  Adding a node changes no evaluation result when its kind is
    already present (the kind keeps resolving to the earlier node), and
    none either when no edge mentions its id. *)
Theorem addNode_same_result (id : string) (rnd : float) (label : Label)
        (s : State) :
  (exists m, In m (nodes s) /\ n_label m = label) \/
  (forall e, In e (edges s) -> e_source e <> id /\ e_target e <> id) ->
  result (handleSubmit (addNode id rnd label s)) = result (handleSubmit s).
Proof.
  intros H. apply result_same_count. unfold addNode.
  cbn [nodes edges setNodes].
  set (n := {| n_id := id; n_position := _; n_label := label |}).
  rewrite !countCorrect_filter. f_equal. apply filter_ext_in.
  intros [a b] _. destruct H as [(m & Hm & Hml) | Hfree].
  - assert (Hfind : forall l,
               find (fun k => String.eqb (n_label k) l) (nodes s ++ [n])
               = find (fun k => String.eqb (n_label k) l) (nodes s)).
    { intros l.
      destruct (find (fun k => String.eqb (n_label k) l) (nodes s)) eqn:E.
      - now apply find_app_Some.
      - rewrite (find_app_None _ _ _ E). cbn.
        destruct (String.eqb label l) eqn:El; [|reflexivity].
        apply String.eqb_eq in El. subst l.
        pose proof (find_none _ _ E m Hm) as Hno. cbn in Hno.
        rewrite Hml, String.eqb_refl in Hno. discriminate. }
    unfold flowMatched. now rewrite !Hfind.
  - destruct (flowMatched (nodes s) (edges s) (a, b)) eqn:Hold.
    + now apply flowMatched_more_nodes.
    + destruct (flowMatched (nodes s ++ [n]) (edges s) (a, b)) eqn:Hnew;
        [exfalso|reflexivity].
      apply flowMatched_spec in Hnew.
      destruct Hnew as (x & y & Hx & Hy & e & Hin & Hes & Het).
      apply find_label_first in Hx, Hy.
      destruct (Hfree e Hin) as [Hns Hnt].
      assert (Hin_old : forall l z,
                 find (fun k => String.eqb (n_label k) l) (nodes s ++ [n])
                 = Some z -> n_id z <> id ->
                 find (fun k => String.eqb (n_label k) l) (nodes s) = Some z).
      { intros l z Hz Hid.
        destruct (find (fun k => String.eqb (n_label k) l) (nodes s)) eqn:E.
        - rewrite (find_app_Some _ _ _ _ E) in Hz. exact Hz.
        - rewrite (find_app_None _ _ _ E) in Hz. cbn in Hz.
          destruct (String.eqb label l); [|discriminate].
          injection Hz as <-. now cbn in Hid. }
      assert (Hx' := Hin_old _ _ Hx ltac:(congruence)).
      assert (Hy' := Hin_old _ _ Hy ltac:(congruence)).
      assert (Hm : flowMatched (nodes s) (edges s) (a, b) = true).
      { apply flowMatched_spec. exists x, y.
        rewrite <- !find_label_first. repeat split; auto.
        exists e. auto. }
      congruence.
Qed.

(** X9 on a concrete graph: a second "User" node added to the complete
    palette graph leaves the result at 11 of 11. *)
Lemma addNode_same_result_palette :
  result (handleSubmit (addNode "dup" 0.5 "User" (attempt 11)))
  = result (handleSubmit (attempt 11)) /\
  (correct <$> result (handleSubmit (attempt 11))) = Some 11%nat.
Proof.
  split.
  - apply addNode_same_result. left.
    exists {| n_id := demoUuid 0;
              n_position := {| pos_x := 450; pos_y := 100 |};
              n_label := "User" |}.
    split; [vm_compute; tauto|reflexivity].
  - vm_compute. reflexivity.
Defined.

(** ** Reset *)

(** X10.  After a reset the result is cleared, the overlay hidden and the
    solution flag off; and however many timers of an abandoned reveal then
    run, the graph has no nodes and an evaluation gives 0 of 11, accuracy
    "0.0", the "Keep trying" feedback and the error sound. *)
Theorem evaluate_after_reset (s : State) (fuel : nat) (deadline : option Z) :
  let later := fst (loop fuel deadline (handleReset s)) in
  result (handleReset s) = None /\
  resultOverlay (handleReset s) = None /\
  showSolution (handleReset s) = false /\
  nodes later = [] /\
  exists r,
    result (handleSubmit later) = Some r /\
    correct r = 0%nat /\ accuracy r = "0.0" /\
    feedback r = feedbackNeedsWork /\
    effects (handleSubmit later) = effects later ++ [Play SoundError].
Proof.
  intros later. do 3 (split; [reflexivity|]).
  assert (Hn : nodes later = []) by (unfold later; now rewrite loop_nodes).
  split; [exact Hn|].
  eexists. split; [apply handleSubmit_result|].
  rewrite handleSubmit_effects, Hn, countCorrect_no_nodes.
  repeat split; vm_compute; reflexivity.
Qed.

(** ** Timers in general *)

(** A timer callback changes nothing but the edges, the queue, the clock
    and the effects. *)
Lemma fire_keeps t rest s :
  result (fire t rest s) = result s /\
  showSolution (fire t rest s) = showSolution s /\
  showResultOverlay (fire t rest s) = showResultOverlay s.
Proof.
  unfold fire, runTask. destruct (task t) as [e i len|].
  - destruct (Z.of_nat i =? Z.of_nat len - 1)%Z; repeat split.
  - repeat split.
Qed.

Lemma loop_keeps fuel deadline s :
  result (fst (loop fuel deadline s)) = result s /\
  showSolution (fst (loop fuel deadline s)) = showSolution s /\
  showResultOverlay (fst (loop fuel deadline s)) = showResultOverlay s.
Proof.
  revert s. induction fuel as [|fuel IH]; intros s; cbn [loop].
  - destruct deadline; repeat split.
  - destruct (popTimer (timers s)) as [[t rest]|];
      [|destruct deadline; repeat split].
    destruct (from_option _ true deadline); [|destruct deadline; repeat split].
    specialize (IH (fire t rest s)).
    destruct (loop fuel deadline (fire t rest s)) as [s'' tr]. cbn [fst] in *.
    destruct (fire_keeps t rest s) as (H1 & H2 & H3).
    now rewrite <- H1, <- H2, <- H3.
Qed.

(** X11.  From any state, letting all pending timers run empties the
    queue; every pending edge insertion is applied exactly once, behind the
    edges that were there, whatever the graph has become; the nodes, the
    stored result and the overlay flag are not touched. *)
Theorem pending_insertions_all_apply (s : State) :
  timers (runToCompletion s) = [] /\
  nodes (runToCompletion s) = nodes s /\
  result (runToCompletion s) = result s /\
  showResultOverlay (runToCompletion s) = showResultOverlay s /\
  exists added,
    edges (runToCompletion s) = edges s ++ added /\
    added ≡ₚ pendingEdges (timers s).
Proof.
  unfold runToCompletion.
  destruct (loop_drains _ s (le_n _)) as (Hq & Hadd).
  destruct (loop_keeps (budget (timers s)) None s) as (Hr & _ & Ho).
  split; [exact Hq|]. split; [apply loop_nodes|].
  split; [exact Hr|]. split; [exact Ho|exact Hadd].
Qed.

(** X12.  A second reveal started while a first one is in flight (after
    [k] of its insertions, from an idle component) cancels nothing either:
    in the end the nodes are the ten of the second reveal, the edges are
    the [11 - k] leftover edges of the first, which point at nodes that are
    gone, together with the eleven of the second, and the evaluation gives
    11 of 11. *)
Theorem reveal_during_reveal (uuid1 uuid2 : nat -> string) (s : State)
        (k : nat) :
  timers s = [] ->
  (k < 11)%nat ->
  let mid := fst (loop k None (handleShowSolution uuid1 s)) in
  let final := runToCompletion (handleShowSolution uuid2 mid) in
  nodes final = revealedNodes uuid2 /\
  timers final = [] /\
  edges final ≡ₚ skipn k (revealedEdges uuid1) ++ revealedEdges uuid2 /\
  length (edges final) = (22 - k)%nat /\
  exists r, result (handleSubmit final) = Some r /\ correct r = 11%nat.
Proof.
  intros Hidle Hk mid final.
  destruct (handleShowSolution_spec uuid1 s)
    as (_ & _ & _ & _ & Hnow & _ & Ht).
  rewrite Hidle in Ht. cbn [app] in Ht.
  destruct (loop_prefix k (revealedEdges uuid1) 0 11
                        (handleShowSolution uuid1 s) (now s))
    as (_ & _ & Hmt & _ & _); [exact Ht|lia|lia|cbn; lia|].
  fold mid in Hmt. cbn [Nat.add] in Hmt.
  destruct (handleShowSolution_spec uuid2 mid)
    as (Hn2 & He2 & _ & _ & _ & _ & Ht2).
  destruct (loop_drains _ (handleShowSolution uuid2 mid) (le_n _))
    as (Hq & added & Hadd & Hperm).
  fold (runToCompletion (handleShowSolution uuid2 mid)) in Hq, Hadd.
  fold final in Hq, Hadd.
  rewrite He2 in Hadd. cbn [app] in Hadd.
  rewrite Ht2, Hmt, pendingEdges_app, !pendingEdges_revealTimers in Hperm.
  assert (Hnodes : nodes final = revealedNodes uuid2)
    by (unfold final, runToCompletion; now rewrite loop_nodes).
  split; [exact Hnodes|]. split; [exact Hq|].
  rewrite Hadd. split; [exact Hperm|]. split.
  - rewrite (Permutation_length Hperm), length_app, length_skipn. cbn. lia.
  - eexists. split; [apply handleSubmit_result|]. cbn [correct verdict].
    rewrite Hnodes, Hadd.
    apply (realised_full_count _ _ _ _ (revealed_realise uuid2)).
    intros e Hin. apply (Permutation_in e (Permutation_sym Hperm)).
    apply in_or_app. now right.
Qed.

(** X12 at a concrete session: a second reveal after four insertions of
    the first ends with 18 edges on 10 nodes. *)
Lemma reveal_during_reveal_after_four :
  let mid := fst (loop 4 None (handleShowSolution demoUuid initial)) in
  let final :=
    runToCompletion (handleShowSolution (fun k => demoUuid (10 + k)) mid) in
  length (nodes final) = 10%nat /\ length (edges final) = 18%nat /\
  exists r, result (handleSubmit final) = Some r /\ correct r = 11%nat.
Proof.
  intros mid final.
  destruct (reveal_during_reveal demoUuid (fun k => demoUuid (10 + k))
                                 initial 4)
    as (Hn & _ & _ & Hl & Hr); [reflexivity|lia|].
  fold mid in Hn, Hl, Hr. fold final in Hn, Hl, Hr.
  split; [rewrite Hn; reflexivity|]. split; [exact Hl|exact Hr].
Defined.

(** ** Invariants of a session *)

Lemma perform_nodes a s :
  nodes (perform a s) = nodes s \/
  nodes (perform a s) = [] \/
  (exists uuid, a = ShowSolution uuid /\
                nodes (perform a s) = revealedNodes uuid) \/
  (exists id rnd label n,
      a = AddNode id rnd label /\ nodes (perform a s) = nodes s ++ [n] /\
      n_id n = id).
Proof.
  destruct a as [id rnd label|conn| | |uuid| |]; cbn [perform].
  - right. right. right. exists id, rnd, label. eexists. repeat split.
  - left. reflexivity.
  - left. apply handleSubmit_graph.
  - right. left. reflexivity.
  - right. right. left. exists uuid. split; [reflexivity|].
    apply handleShowSolution_spec.
  - left. reflexivity.
  - left. unfold tick. destruct (popTimer (timers s)) as [[t rest]|];
      [apply fire_spec|reflexivity].
Qed.

(** X13.  Node ids stay unique throughout a session, as long as every node
    added by hand gets an id no present node has and the ten uuids of each
    reveal differ from one another; connections, evaluations, resets,
    dismissals and timers cannot break this. *)
Theorem node_ids_stay_unique (acts : list Action) (s : State) :
  NoDup (map n_id (nodes s)) ->
  AllFresh acts s ->
  NoDup (map n_id (nodes (performAll acts s))).
Proof.
  revert s. induction acts as [|a acts IH]; intros s Hnd Hfresh;
    [exact Hnd|].
  destruct Hfresh as [Ha Hrest]. cbn [performAll fold_left].
  apply IH; [|exact Hrest].
  destruct (perform_nodes a s)
    as [-> | [-> | [(uuid & -> & ->) | (id & rnd & l & n & -> & -> & Hid)]]].
  - exact Hnd.
  - constructor.
  - exact Ha.
  - rewrite map_app. cbn [map]. apply NoDup_app. split; [exact Hnd|].
    split; [|apply NoDup_singleton].
    intros x Hx Hx'. apply list_elem_of_singleton in Hx'. subst x.
    apply Ha. rewrite <- Hid. now apply list_elem_of_In.
Qed.

(** X13 on a session touching every handler. *)
Lemma node_ids_stay_unique_busy :
  NoDup (map n_id (nodes (performAll busySession initial))) /\
  length (nodes (performAll busySession initial)) = 1%nat.
Proof.
  split; [|vm_compute; reflexivity].
  apply node_ids_stay_unique.
  - constructor.
  - vm_compute.
    repeat split;
      try (apply (bool_decide_unpack _); vm_compute; exact I);
      intuition discriminate.
Defined.

Lemma owed_perm q q' : q ≡ₚ q' -> owed q = owed q'.
Proof.
  unfold owed.
  induction 1 as [|t q q' _ IH|t u q|q q' q'' _ IH1 _ IH2];
    cbn [fold_right].
  - reflexivity.
  - now rewrite IH.
  - destruct (task t) as [? i len|], (task u) as [? j len'|];
      try destruct (Z.of_nat i =? Z.of_nat len - 1)%Z;
      try destruct (Z.of_nat j =? Z.of_nat len' - 1)%Z; reflexivity.
  - congruence.
Qed.

Lemma owed_app q q' : owed (q ++ q') = (owed q + owed q')%nat.
Proof.
  unfold owed. induction q as [|t q IH]; cbn [fold_right app];
    [reflexivity|].
  rewrite IH. destruct (task t) as [? i len|];
    [destruct (Z.of_nat i =? Z.of_nat len - 1)%Z|]; reflexivity.
Qed.

Lemma fitViews_app l l' : fitViews (l ++ l') = (fitViews l + fitViews l')%nat.
Proof. unfold fitViews. now rewrite List.filter_app, length_app. Qed.

(** Running a timer moves a [fitView] call from owed to made, or leaves
    both counts alone. *)
Lemma fire_owed q t rest s :
  popTimer q = Some (t, rest) ->
  (fitViews (effects (fire t rest s)) + owed (timers (fire t rest s)))%nat
  = (fitViews (effects s) + owed q)%nat.
Proof.
  intros E. apply popTimer_perm in E. rewrite (owed_perm _ _ E).
  destruct t as [d [e i len|]]; unfold fire, runTask; cbn [task due].
  - change (owed ({| due := d; task := RevealEdge e i len |} :: rest))
      with (if (Z.of_nat i =? Z.of_nat len - 1)%Z
            then S (owed rest) else owed rest).
    destruct (Z.of_nat i =? Z.of_nat len - 1)%Z;
      cbn [effects timers setEdges setTimeout]; [|reflexivity].
    rewrite owed_app. cbn. lia.
  - change (owed ({| due := d; task := FitViewTask |} :: rest))
      with (S (owed rest)).
    cbn [effects timers emit]. rewrite fitViews_app. cbn. lia.
Qed.

Lemma loop_owed fuel deadline s :
  (fitViews (effects (fst (loop fuel deadline s)))
   + owed (timers (fst (loop fuel deadline s))))%nat
  = (fitViews (effects s) + owed (timers s))%nat.
Proof.
  revert s. induction fuel as [|fuel IH]; intros s; cbn [loop].
  - destruct deadline; reflexivity.
  - destruct (popTimer (timers s)) as [[t rest]|] eqn:E;
      [|destruct deadline; reflexivity].
    destruct (from_option _ true deadline); [|destruct deadline; reflexivity].
    specialize (IH (fire t rest s)).
    destruct (loop fuel deadline (fire t rest s)) as [s'' tr]. cbn [fst] in *.
    rewrite IH. now apply fire_owed.
Qed.

Lemma perform_owed a s :
  (fitViews (effects (perform a s)) + owed (timers (perform a s)))%nat
  = (fitViews (effects s) + owed (timers s) + reveals [a])%nat.
Proof.
  destruct a as [id rnd label|conn| | |uuid| |]; cbn [perform];
    [change (reveals [AddNode id rnd label]) with 0%nat
    |change (reveals [Connect conn]) with 0%nat
    |change (reveals [Submit]) with 0%nat
    |change (reveals [Reset]) with 0%nat
    |change (reveals [ShowSolution uuid]) with 1%nat
    |change (reveals [Dismiss]) with 0%nat
    |change (reveals [Tick]) with 0%nat].
  - change (effects (addNode id rnd label s)) with (effects s).
    change (timers (addNode id rnd label s)) with (timers s). lia.
  - unfold onConnect. cbn [effects timers setEdges emit].
    rewrite fitViews_app. change (fitViews [Play SoundConnect]) with 0%nat.
    lia.
  - rewrite handleSubmit_effects, fitViews_app.
    destruct (handleSubmit_graph s) as (_ & _ & -> & _).
    unfold fanfare. destruct (PrimFloat.leb _ _).
    + change (fitViews [Play SoundSuccess; Confetti]) with 0%nat. lia.
    + change (fitViews [Play SoundError]) with 0%nat. lia.
  - change (effects (handleReset s)) with (effects s).
    change (timers (handleReset s)) with (timers s). lia.
  - destruct (handleShowSolution_spec uuid s)
      as (_ & _ & _ & _ & _ & -> & ->).
    rewrite owed_app.
    change (owed (revealTimers (now s) 0 11 (revealedEdges uuid))) with 1%nat.
    lia.
  - change (effects (dismiss s)) with (effects s).
    change (timers (dismiss s)) with (timers s). lia.
  - unfold tick. destruct (popTimer (timers s)) as [[t rest]|] eqn:E.
    + rewrite (fire_owed _ _ _ _ E). lia.
    + lia.
Qed.

(** Letting all timers run empties the queue and keeps the sum of made and
    owed [fitView] calls. *)
Lemma pending_timers_drain s :
  timers (runToCompletion s) = [] /\
  (fitViews (effects (runToCompletion s))
   + owed (timers (runToCompletion s)))%nat
  = (fitViews (effects s) + owed (timers s))%nat.
Proof.
  unfold runToCompletion. split; [|apply loop_owed].
  apply (loop_drains _ s (le_n _)).
Qed.

(** X14.  However reveals, resets, evaluations, connections and timers are
    interleaved in a session of the freshly mounted component, once all
    pending timers have run [fitView] has been called exactly once per
    reveal: no reveal loses its call to a reset or to a later reveal, and
    none gets two. *)
Theorem fitView_once_per_reveal (acts : list Action) :
  fitViews (effects (runToCompletion (performAll acts initial)))
  = reveals acts /\
  timers (runToCompletion (performAll acts initial)) = [].
Proof.
  assert (Hsession : forall acts s,
             (fitViews (effects (performAll acts s))
              + owed (timers (performAll acts s)))%nat
             = (fitViews (effects s) + owed (timers s) + reveals acts)%nat).
  { clear acts. induction acts as [|a acts IH]; intros s.
    - cbn. lia.
    - cbn [performAll fold_left]. fold (performAll acts (perform a s)).
      rewrite IH, perform_owed.
      change (a :: acts) with ([a] ++ acts).
      unfold reveals. rewrite List.filter_app, length_app. lia. }
  destruct (pending_timers_drain (performAll acts initial)) as [Hq Hsum].
  split; [|exact Hq].
  specialize (Hsession acts initial). cbn in Hsession.
  rewrite Hq in Hsum. cbn in Hsum. lia.
Qed.

(** ** The build loop of the reveal, for any flow *)

Section BuildLoop.

Variable uuid : nat -> string.

Lemma Realises_more_nodes nds ext e p :
  Realises nds e p -> Realises (nds ++ ext) e p.
Proof.
  intros (x & y & Hx & Hy & Hs & Ht). exists x, y.
  repeat split; auto using find_app_Some.
Qed.

Lemma ensureNode_spec label b :
  BuildInv uuid b ->
  is_Some (nodePositions !! label) ->
  exists b' ext,
    ensureNode uuid label b = Some b' /\
    BuildInv uuid b' /\
    createdNodes b' = createdNodes b ++ ext /\
    solutionEdges b' = solutionEdges b /\
    is_Some (nodeMap b' !! label) /\
    (forall l, In l (map n_label (createdNodes b')) <->
               In l (map n_label (createdNodes b)) \/ l = label).
Proof.
  intros (HM & HU & HL & HP) [p Hp]. unfold ensureNode.
  destruct (nodeMap b !! label) as [n|] eqn:Hn.
  - exists b, []. rewrite app_nil_r.
    split; [reflexivity|]. split; [repeat split; assumption|].
    do 2 (split; [reflexivity|]). split; [rewrite Hn; eauto|].
    intros l. split; [tauto|]. intros [H| ->]; [exact H|].
    rewrite HM in Hn. apply find_label_found in Hn. destruct Hn as [Hin <-].
    now apply in_map.
  - rewrite Hp.
    set (node := {| n_id := uuid (drawn b); n_position := p;
                    n_label := label |}).
    assert (Hnone : find (fun k => String.eqb (n_label k) label)
                         (createdNodes b) = None) by (now rewrite <- HM).
    eexists. exists [node]. split; [reflexivity|]. cbn [createdNodes
      solutionEdges nodeMap drawn]. split; [|split; [reflexivity|]].
    + repeat split; cbn [createdNodes nodeMap drawn].
      * intros l. destruct (decide (label = l)) as [<-|Hne].
        -- rewrite lookup_insert_eq, (find_app_None _ _ _ Hnone). cbn.
           now rewrite String.eqb_refl.
        -- rewrite lookup_insert_ne by assumption. rewrite HM.
           destruct (find (fun k => String.eqb (n_label k) l)
                          (createdNodes b)) eqn:E.
           ++ now rewrite (find_app_Some _ _ _ _ E).
           ++ rewrite (find_app_None _ _ _ E). cbn.
              apply String.eqb_neq in Hne. now rewrite Hne.
      * rewrite map_app, seq_S, map_app, HU. reflexivity.
      * rewrite map_app. cbn [map]. apply NoDup_app. split; [exact HL|].
        split; [|apply NoDup_singleton].
        intros x Hx Hx'. apply list_elem_of_singleton in Hx'. subst x.
        apply list_elem_of_In, in_map_iff in Hx.
        destruct Hx as (m & Hml & Hm).
        pose proof (find_none _ _ Hnone m Hm) as Hno. cbn in Hno.
        rewrite Hml, String.eqb_refl in Hno. discriminate.
      * apply Forall_app. split; [exact HP|]. now repeat constructor.
    + split; [reflexivity|]. split; [rewrite lookup_insert_eq; eauto|].
      intros l. rewrite map_app, in_app_iff. cbn. intuition.
Qed.

Lemma buildStep_spec index a b0 b :
  BuildInv uuid b ->
  is_Some (nodePositions !! a) -> is_Some (nodePositions !! b0) ->
  exists b' ext e,
    buildStep uuid index (a, b0) b = Some b' /\
    BuildInv uuid b' /\
    createdNodes b' = createdNodes b ++ ext /\
    solutionEdges b' = solutionEdges b ++ [e] /\
    Realises (createdNodes b') e (a, b0) /\
    e_id e = edgeId index /\
    (forall l, In l (map n_label (createdNodes b')) <->
               In l (map n_label (createdNodes b)) \/ l = a \/ l = b0).
Proof.
  intros Hinv Ha Hb. unfold buildStep.
  destruct (ensureNode_spec a b Hinv Ha)
    as (b1 & ext1 & -> & Hinv1 & Hc1 & He1 & [x Hx] & Hl1).
  cbn [mbind option_bind].
  destruct (ensureNode_spec b0 b1 Hinv1 Hb)
    as (b2 & ext2 & -> & Hinv2 & Hc2 & He2 & [y Hy] & Hl2).
  cbn [mbind option_bind].
  assert (Hx2 : nodeMap b2 !! a = Some x).
  { destruct Hinv1 as (HM1 & _). destruct Hinv2 as (HM2 & _).
    rewrite HM2, Hc2. apply find_app_Some. now rewrite <- HM1. }
  rewrite Hx2, Hy. cbn [mbind option_bind].
  do 3 eexists. split; [reflexivity|].
  cbn [createdNodes solutionEdges nodeMap drawn].
  split; [exact Hinv2|]. split; [rewrite Hc2, Hc1, <- app_assoc; reflexivity|].
  split; [now rewrite He2, He1|]. split.
  - destruct Hinv2 as (HM2 & _). exists x, y. cbn [fst snd e_source e_target].
    rewrite <- !HM2. auto.
  - split; [reflexivity|]. intros l. rewrite Hl2, Hl1. tauto.
Qed.

Lemma buildFrom_spec flow : forall index b,
  BuildInv uuid b ->
  (forall l, In l (flowLabels flow) -> is_Some (nodePositions !! l)) ->
  exists b' ext new,
    buildFrom uuid index flow b = Some b' /\
    BuildInv uuid b' /\
    createdNodes b' = createdNodes b ++ ext /\
    solutionEdges b' = solutionEdges b ++ new /\
    Forall2 (Realises (createdNodes b')) new flow /\
    map e_id new = map edgeId (seq index (length flow)) /\
    (forall l, In l (map n_label (createdNodes b')) <->
               In l (map n_label (createdNodes b)) \/ In l (flowLabels flow)).
Proof.
  induction flow as [|[a b0] flow IH]; intros index b Hinv Hpos.
  - exists b, [], []. rewrite !app_nil_r.
    split; [reflexivity|]. split; [exact Hinv|].
    do 2 (split; [reflexivity|]). split; [constructor|].
    split; [reflexivity|]. intros l. cbn. tauto.
  - cbn [buildFrom].
    destruct (buildStep_spec index a b0 b Hinv)
      as (b1 & ext1 & e & -> & Hinv1 & Hc1 & He1 & Hr1 & Hid1 & Hl1).
    { apply Hpos. cbn. auto. }
    { apply Hpos. cbn. auto. }
    cbn [mbind option_bind].
    destruct (IH (S index) b1 Hinv1)
      as (b' & ext & new & -> & Hinv' & Hc' & He' & Hr' & Hid' & Hl').
    { intros l Hl. apply Hpos. cbn. auto. }
    exists b', (ext1 ++ ext), (e :: new). split; [reflexivity|].
    split; [exact Hinv'|].
    split; [rewrite Hc', Hc1, <- app_assoc; reflexivity|].
    split; [rewrite He', He1, <- app_assoc; reflexivity|]. split.
    + constructor; [|exact Hr'].
      rewrite Hc'. now apply Realises_more_nodes.
    + split; [cbn; now rewrite Hid1, Hid'|].
      intros l. rewrite Hl', Hl1. cbn. intuition congruence.
Qed.

End BuildLoop.

(** X15.  For any flow whose kinds all have an entry in the position
    table, the first loop of the reveal succeeds and builds exactly one node
    per kind the flow mentions, each at its table position and carrying the
    uuids in the order drawn, and exactly one edge per pair, named
    [e-0], [e-1], ... in flow order, the [i]-th running from the node of
    the [i]-th pair's source kind to the node of its target kind. *)
Theorem build_one_node_per_kind (uuid : nat -> string)
        (flow : list (Label * Label)) :
  (forall l, In l (flowLabels flow) -> is_Some (nodePositions !! l)) ->
  exists b,
    buildFrom uuid 0 flow emptyBuild = Some b /\
    NoDup (map n_label (createdNodes b)) /\
    (forall l, In l (map n_label (createdNodes b)) <->
               In l (flowLabels flow)) /\
    map n_id (createdNodes b) = map uuid (seq 0 (length (createdNodes b))) /\
    Forall (fun n => nodePositions !! n_label n = Some (n_position n))
           (createdNodes b) /\
    Forall2 (Realises (createdNodes b)) (solutionEdges b) flow /\
    map e_id (solutionEdges b) = map edgeId (seq 0 (length flow)).
Proof.
  intros Hpos.
  assert (Hinv0 : BuildInv uuid emptyBuild).
  { split; [intros l; apply lookup_empty|].
    split; [reflexivity|]. split; constructor. }
  destruct (buildFrom_spec uuid flow 0 emptyBuild Hinv0 Hpos)
    as (b & ext & new & Hb & (HM & HU & HL & HP) & Hc & He & Hr & Hid & Hl).
  cbn [emptyBuild createdNodes solutionEdges app] in *. subst new.
  exists b. split; [exact Hb|]. split; [exact HL|]. split.
  - intros l. rewrite Hl. cbn. tauto.
  - split.
    + assert (Hlen : length (createdNodes b) = drawn b).
      { rewrite <- (length_map n_id), HU. now rewrite length_map, length_seq. }
      now rewrite Hlen.
    + auto.
Qed.

(** X15 on a flow other than the expected one: a two-pair loop between
    two kinds gives two nodes and two edges. *)
Lemma build_one_node_per_kind_loop :
  exists b,
    buildFrom demoUuid 0 [("Evaluation", "User"); ("User", "Evaluation")]
              emptyBuild = Some b /\
    map n_label (createdNodes b) = ["Evaluation"; "User"] /\
    map e_id (solutionEdges b) = ["e-0"; "e-1"].
Proof.
  destruct (build_one_node_per_kind
              demoUuid [("Evaluation", "User"); ("User", "Evaluation")])
    as (b & Hb & _ & _ & _ & _ & _ & Hid).
  - intros l Hl. cbn in Hl.
    destruct Hl as [<-|[<-|[<-|[<-|[]]]]]; vm_compute; eauto.
  - exists b. split; [exact Hb|]. split; [|exact Hid].
    vm_compute in Hb. injection Hb as <-. reflexivity.
Defined.

(** ** The reference tables *)

Lemma flowb_In_inv a b : flowb a b = true -> In (a, b) expectedFlow.
Proof.
  unfold flowb. intros H. apply existsb_exists in H.
  destruct H as ([c d] & Hin & H). cbn in H.
  apply andb_true_iff in H. destruct H as [Hc Hd].
  apply String.eqb_eq in Hc, Hd. now subst.
Qed.

(** X16.  The adjacency table says what the expected flow says: [b] is
    listed under [a] exactly when [(a, b)] is a pair of the flow; and every
    kind of the catalogue has an entry, which lists its successors in flow
    order. *)
Theorem rules_are_the_flow :
  (forall a b,
      In (a, b) expectedFlow <->
      exists targets, nodeConnectionRules !! a = Some targets /\ In b targets) /\
  Forall (fun t => nodeConnectionRules !! t_label t
                   = Some (successors expectedFlow (t_label t)))
         nodeTemplates.
Proof.
  split; [|repeat constructor].
  intros a b. split.
  - intros Hin.
    assert (H : forallb (fun p =>
                  match nodeConnectionRules !! fst p with
                  | Some targets => existsb (String.eqb (snd p)) targets
                  | None => false
                  end) expectedFlow = true) by (vm_compute; reflexivity).
    rewrite forallb_forall in H. specialize (H _ Hin). cbn [fst snd] in H.
    destruct (nodeConnectionRules !! a) as [targets|]; [|discriminate].
    exists targets. split; [reflexivity|].
    apply existsb_exists in H. destruct H as (x & Hx & Hbx).
    apply String.eqb_eq in Hbx. now subst.
  - intros (targets & Hl & Hb).
    apply elem_of_list_to_map_2, list_elem_of_In in Hl.
    apply flowb_In_inv.
    cbn in Hl.
    repeat (destruct Hl as [[= <- <-]|Hl];
            [cbn in Hb; repeat (destruct Hb as [<-|Hb]; [reflexivity|]);
             contradiction|]).
    contradiction.
Qed.

(** ** Tooltips *)

(** X17.  Hovering a node whose label is a kind of the catalogue sets the
    tooltip to that kind's label and description, 10 px right of and below
    the pointer; hovering a node with any other label leaves the tooltip as
    it was.  Every node a reveal creates is of the first sort. *)
Theorem tooltip_per_kind (clientX clientY : float)
        (showNodeInfo : option NodeInfo) :
  (forall t, In t nodeTemplates ->
             onMouseEnter (t_label t) clientX clientY showNodeInfo
             = Some {| i_label := t_label t;
                       i_description := t_description t;
                       i_x := (clientX + 10)%float;
                       i_y := (clientY + 10)%float |}) /\
  (forall label, ~ In label (map t_label nodeTemplates) ->
                 onMouseEnter label clientX clientY showNodeInfo
                 = showNodeInfo) /\
  (forall uuid s n,
      In n (nodes (handleShowSolution uuid s)) ->
      exists t, In t nodeTemplates /\ t_label t = n_label n /\
                onMouseEnter (n_label n) clientX clientY showNodeInfo
                = Some {| i_label := n_label n;
                          i_description := t_description t;
                          i_x := (clientX + 10)%float;
                          i_y := (clientY + 10)%float |}).
Proof.
  assert (Hcat : forall t, In t nodeTemplates ->
             onMouseEnter (t_label t) clientX clientY showNodeInfo
             = Some {| i_label := t_label t;
                       i_description := t_description t;
                       i_x := (clientX + 10)%float;
                       i_y := (clientY + 10)%float |}).
  { intros t Ht. cbn in Ht.
    repeat (destruct Ht as [<-|Ht]; [reflexivity|]). contradiction. }
  split; [exact Hcat|]. split.
  - intros label Hno. unfold onMouseEnter.
    destruct (find _ nodeTemplates) as [t|] eqn:E; [|reflexivity].
    apply find_some in E. destruct E as [Hin Heq].
    apply String.eqb_eq in Heq. exfalso. apply Hno. rewrite <- Heq.
    now apply in_map.
  - intros uuid s n Hn.
    destruct (handleShowSolution_spec uuid s) as (Hnodes & _).
    rewrite Hnodes in Hn.
    destruct (find (fun t => String.eqb (t_label t) (n_label n)) nodeTemplates)
      as [t|] eqn:E.
    + apply find_some in E. destruct E as [Hin Heq].
      apply String.eqb_eq in Heq. exists t. split; [exact Hin|].
      split; [exact Heq|]. rewrite <- Heq. now apply Hcat.
    + exfalso. cbn in Hn.
      repeat (destruct Hn as [<-|Hn]; [discriminate E|]). contradiction.
Qed.

(** ** The result overlay *)

(** What each action does to the overlay. *)
Lemma overlay_step (a : Action) (s : State) :
  resultOverlay (perform a s)
  = match a with
    | Submit =>
        Some (verdict (countCorrect expectedFlow (nodes s) (edges s)))
    | Reset | ShowSolution _ | Dismiss => None
    | AddNode _ _ _ | Connect _ | Tick => resultOverlay s
    end.
Proof.
  destruct a as [id rnd label|conn| | |uuid| |]; cbn [perform];
    try reflexivity.
  - unfold resultOverlay.
    destruct (handleShowSolution_spec uuid s) as (_ & _ & -> & _).
    now destruct (showResultOverlay _).
  - unfold resultOverlay, tick.
    destruct (popTimer (timers s)) as [[t rest]|]; [|reflexivity].
    destruct (fire_keeps t rest s) as (-> & _ & ->). reflexivity.
Qed.

(** X19.  The result overlay is not refreshed by edits: after an
    evaluation, however many nodes are added, connections drawn and timers
    run, the overlay still shows the result of that evaluation, whatever
    the graph would score now; a reset, a reveal or the dismiss button hide
    it. *)
Theorem overlay_stays_stale (acts : list Action) (s : State) :
  forallb isEdit acts = true ->
  let shown := performAll acts (handleSubmit s) in
  resultOverlay shown
  = Some (verdict (countCorrect expectedFlow (nodes s) (edges s))) /\
  resultOverlay (handleReset shown) = None /\
  (forall uuid, resultOverlay (handleShowSolution uuid shown) = None) /\
  resultOverlay (dismiss shown) = None.
Proof.
  intros Hedits shown.
  assert (Hstale : forall acts s0,
             forallb isEdit acts = true ->
             resultOverlay (performAll acts s0) = resultOverlay s0).
  { clear. induction acts as [|a acts IH]; intros s0 H; [reflexivity|].
    cbn [forallb] in H. apply andb_true_iff in H. destruct H as [Ha H].
    cbn [performAll fold_left]. fold (performAll acts (perform a s0)).
    rewrite (IH _ H), overlay_step. now destruct a. }
  assert (H1 : resultOverlay shown
               = Some (verdict (countCorrect expectedFlow (nodes s) (edges s))))
    by (unfold shown; now rewrite Hstale).
  clearbody shown.
  split; [exact H1|].
  split; [exact (overlay_step Reset shown)|].
  split; [intros uuid; exact (overlay_step (ShowSolution uuid) shown)|].
  exact (overlay_step Dismiss shown).
Qed.

(** X19 on the palette: evaluated with three connections drawn, the
    overlay still says 3 of 11 after a fourth reference connection is
    drawn, while a new evaluation would say 4. *)
Lemma overlay_stays_stale_palette :
  let fourth := {| c_source := Some (demoUuid 2); c_target := Some (demoUuid 8);
                   c_sourceHandle := None; c_targetHandle := None |} in
  let shown := performAll [Connect fourth] (handleSubmit (attempt 3)) in
  (correct <$> resultOverlay shown) = Some 3%nat /\
  (correct <$> result (handleSubmit shown)) = Some 4%nat.
Proof.
  intros fourth shown.
  destruct (overlay_stays_stale [Connect fourth] (attempt 3) eq_refl)
    as (H & _).
  fold shown in H. rewrite H. split; vm_compute; reflexivity.
Defined.

(** ** The reveal on a busy queue *)

Section MergeFacts.

Context {A : Type}.
Implicit Types (a b q : list A).

Lemma Merge_nil_l b : Merge [] b b.
Proof. induction b; constructor; auto. Qed.

Lemma Merge_nil_r a : Merge a [] a.
Proof. induction a; constructor; auto. Qed.

Lemma Merge_join a1 b1 p a2 b2 q :
  Merge a1 b1 p -> Merge a2 b2 q -> Merge (a1 ++ a2) (b1 ++ b2) (p ++ q).
Proof. induction 1; cbn; intros; try constructor; auto. Qed.

Lemma Merge_old_first a b : Merge a b (a ++ b).
Proof.
  rewrite <- (app_nil_r a) at 1. rewrite <- (app_nil_l b) at 1.
  apply Merge_join; [apply Merge_nil_r|apply Merge_nil_l].
Qed.

Lemma Merge_app_left a b q x : Merge a b q -> Merge (a ++ x) b (q ++ x).
Proof.
  intros H. rewrite <- (app_nil_r b).
  apply Merge_join; [exact H|apply Merge_nil_r].
Qed.

Lemma Merge_app_right a b q x : Merge a b q -> Merge a (b ++ x) (q ++ x).
Proof.
  intros H. rewrite <- (app_nil_r a).
  apply Merge_join; [exact H|apply Merge_nil_l].
Qed.

Lemma Merge_nil_inv a b : Merge a b [] -> a = [] /\ b = [].
Proof. inversion 1; auto. Qed.

Lemma Merge_In_right a b q x : Merge a b q -> In x b -> In x q.
Proof.
  induction 1 as [|y a b q _ IH|y a b q _ IH]; cbn; [tauto|auto|].
  intros [->|H]; auto.
Qed.

Lemma Merge_perm a b q : Merge a b q -> q ≡ₚ a ++ b.
Proof.
  induction 1 as [|y a b q _ IH|y a b q _ IH]; cbn.
  - reflexivity.
  - now rewrite IH.
  - rewrite IH. apply Permutation_middle.
Qed.

(** Taking an element out of an interleaving takes it out of one of the
    two lists, at the matching place. *)
Lemma Merge_split pre t post : forall a b,
  Merge a b (pre ++ t :: post) ->
  (exists a1 a2 b1 b2,
      a = a1 ++ t :: a2 /\ b = b1 ++ b2 /\
      Merge a1 b1 pre /\ Merge a2 b2 post) \/
  (exists a1 a2 b1 b2,
      a = a1 ++ a2 /\ b = b1 ++ t :: b2 /\
      Merge a1 b1 pre /\ Merge a2 b2 post).
Proof.
  induction pre as [|x pre IH]; cbn; intros a b H.
  - inversion H as [|y a' b' q' H'|y a' b' q' H']; subst.
    + left. exists [], a', [], b. repeat split; auto. constructor.
    + right. exists [], a, [], b'. repeat split; auto. constructor.
  - inversion H as [|y a' b' q' H'|y a' b' q' H']; subst.
    + destruct (IH _ _ H') as [(a1 & a2 & b1 & b2 & -> & -> & H1 & H2)
                              |(a1 & a2 & b1 & b2 & -> & -> & H1 & H2)].
      * left. exists (x :: a1), a2, b1, b2. repeat split; auto.
        now constructor.
      * right. exists (x :: a1), a2, b1, b2. repeat split; auto.
        now constructor.
    + destruct (IH _ _ H') as [(a1 & a2 & b1 & b2 & -> & -> & H1 & H2)
                              |(a1 & a2 & b1 & b2 & -> & -> & H1 & H2)].
      * left. exists a1, a2, (x :: b1), b2. repeat split; auto.
        now constructor.
      * right. exists a1, a2, (x :: b1), b2. repeat split; auto.
        now constructor.
Qed.

End MergeFacts.

Lemma Merge_taskEdges a b q :
  Merge a b q -> Merge (taskEdges a) (taskEdges b) (taskEdges q).
Proof.
  induction 1 as [|t a b q _ IH|t a b q _ IH]; cbn.
  - constructor.
  - destruct t; cbn; [constructor|]; exact IH.
  - destruct t; cbn; [constructor|]; exact IH.
Qed.

(** Where the timer that runs next sits in the queue: the timers before
    it are due strictly later, those behind it no earlier. *)
Lemma popTimer_position q t rest :
  popTimer q = Some (t, rest) ->
  exists pre post,
    q = pre ++ t :: post /\ rest = pre ++ post /\
    Forall (fun u => (due t < due u)%Z) pre /\
    Forall (fun u => (due t <= due u)%Z) post.
Proof.
  revert t rest. induction q as [|a q IH]; cbn; [discriminate|].
  intros t rest. destruct (popTimer q) as [[u r]|] eqn:E.
  - destruct (IH u r eq_refl) as (pre & post & -> & -> & Hpre & Hpost).
    destruct (due a <=? due u)%Z eqn:Hle; intros [= <- <-].
    + apply Z.leb_le in Hle. exists [], (pre ++ u :: post).
      repeat split; [constructor|].
      apply Forall_app. split.
      * eapply List.Forall_impl; [|exact Hpre]. cbn. intros; lia.
      * constructor; [exact Hle|].
        eapply List.Forall_impl; [|exact Hpost]. cbn. intros; lia.
    + apply Z.leb_gt in Hle. exists (a :: pre), post.
      repeat split; auto.
  - apply popTimer_None in E. subst q. intros [= <- <-].
    exists [], []. repeat split; constructor.
Qed.

(** The timers a callback leaves in the queue: those that were there,
    and behind them the [fitView] timer if it registered one. *)
Lemma fire_timers t rest s :
  timers (fire t rest s)
  = rest ++ match task t with
            | RevealEdge _ i len =>
                if (Z.of_nat i =? Z.of_nat len - 1)%Z
                then [{| due := Z.max (now s) (due t) + 100;
                         task := FitViewTask |}]
                else []
            | FitViewTask => []
            end.
Proof.
  unfold fire, runTask. destruct (task t) as [e i len|].
  - destruct (Z.of_nat i =? Z.of_nat len - 1)%Z; cbn;
      [reflexivity|now rewrite app_nil_r].
  - cbn. now rewrite app_nil_r.
Qed.

(** The callbacks that run in [fuel] turns from [s]. *)
Lemma ran_step fuel s :
  map snd (snd (loop (S fuel) None s))
  = match popTimer (timers s) with
    | None => []
    | Some (t, rest) =>
        task t :: map snd (snd (loop fuel None (fire t rest s)))
    end.
Proof.
  rewrite loop_step. now destruct (popTimer (timers s)) as [[t rest]|].
Qed.

Lemma fire_budget q t rest s :
  popTimer q = Some (t, rest) ->
  (budget (timers (fire t rest s)) < budget q)%nat.
Proof.
  intros E. rewrite (budget_perm _ _ (popTimer_perm _ _ _ E)).
  apply fire_spec.
Qed.

(** The edges after a run are the edges before, followed by the edges of
    the callbacks that ran, in the order they ran. *)
Lemma loop_edges_ran fuel : forall s,
  edges (fst (loop fuel None s))
  = edges s ++ taskEdges (map snd (snd (loop fuel None s))).
Proof.
  induction fuel as [|fuel IH]; intros s.
  - cbn. now rewrite app_nil_r.
  - rewrite ran_step, loop_step.
    destruct (popTimer (timers s)) as [[t rest]|]; cbn [fst].
    + rewrite IH. destruct (fire_spec t rest s) as (_ & -> & _).
      rewrite <- app_assoc. f_equal.
      unfold pendingEdges, taskEdges. cbn [flat_map].
      rewrite app_nil_r. reflexivity.
    + cbn. now rewrite app_nil_r.
Qed.

(** Once only the [fitView] timer of the reveal is left among other
    timers, it runs at some point among their callbacks. *)
Lemma loop_merge_fitView fuel : forall s others fv,
  task fv = FitViewTask ->
  Merge others [fv] (timers s) ->
  (budget (timers s) <= fuel)%nat ->
  exists ran_others,
    Merge ran_others [FitViewTask] (map snd (snd (loop fuel None s))).
Proof.
  induction fuel as [|fuel IH]; intros s others fv Hfv HM Hb.
  - assert (timers s = []) as Hq by (apply budget_zero; lia).
    rewrite Hq in HM. apply Merge_nil_inv in HM. now destruct HM.
  - rewrite ran_step. destruct (popTimer (timers s)) as [[t rest]|] eqn:E.
    + pose proof (fire_budget _ _ _ s E) as Hlt.
      destruct (popTimer_position _ _ _ E)
        as (pre & post & Hq & -> & _ & _).
      rewrite Hq in HM.
      destruct (Merge_split _ _ _ _ _ HM)
        as [(a1 & a2 & b1 & b2 & -> & Hb12 & H1 & H2)
           |(a1 & a2 & b1 & b2 & -> & Hb12 & H1 & H2)].
      * destruct (IH (fire t (pre ++ post) s)
                     ((a1 ++ a2) ++
                      match task t with
                      | RevealEdge _ i len =>
                          if (Z.of_nat i =? Z.of_nat len - 1)%Z
                          then [{| due := Z.max (now s) (due t) + 100;
                                   task := FitViewTask |}]
                          else []
                      | FitViewTask => []
                      end) fv Hfv) as (ro & Hro).
        -- rewrite fire_timers. apply Merge_app_left.
           rewrite Hb12. now apply Merge_join.
        -- lia.
        -- exists (task t :: ro). now constructor.
      * destruct b1 as [|x b1]; [|destruct b1; discriminate].
        cbn in Hb12. injection Hb12 as <- <-.
        exists (map snd (snd (loop fuel None (fire fv (pre ++ post) s)))).
        rewrite Hfv. constructor. apply Merge_nil_r.
    + apply popTimer_None in E. rewrite E in HM.
      apply Merge_nil_inv in HM. now destruct HM.
Qed.

(** While timers of a reveal are pending among other timers, they run in
    their order, and the [fitView] callback of the reveal runs after the
    last of them; other callbacks may run in between. *)
Lemma loop_merge_reveal fuel : forall eds i s others t0,
  eds <> [] ->
  Merge others (revealTimers t0 i (i + length eds) eds) (timers s) ->
  (budget (timers s) <= fuel)%nat ->
  exists ran_others,
    Merge ran_others
          (map task (revealTimers t0 i (i + length eds) eds) ++ [FitViewTask])
          (map snd (snd (loop fuel None s))).
Proof.
  induction fuel as [|fuel IH]; intros eds i s others t0 Hne HM Hb.
  - assert (timers s = []) as Hq by (apply budget_zero; lia).
    rewrite Hq in HM. apply Merge_nil_inv in HM.
    destruct eds; [congruence|]. now destruct HM.
  - rewrite ran_step. destruct (popTimer (timers s)) as [[t rest]|] eqn:E.
    + pose proof (fire_budget _ _ _ s E) as Hlt.
      destruct (popTimer_position _ _ _ E)
        as (pre & post & Hq & -> & Hpre & _).
      rewrite Hq in HM.
      destruct (Merge_split _ _ _ _ _ HM)
        as [(a1 & a2 & b1 & b2 & -> & Hb12 & H1 & H2)
           |(a1 & a2 & b1 & b2 & -> & Hb12 & H1 & H2)].
      * (* a callback of another timer *)
        destruct (IH eds i (fire t (pre ++ post) s)
                     ((a1 ++ a2) ++
                      match task t with
                      | RevealEdge _ j len =>
                          if (Z.of_nat j =? Z.of_nat len - 1)%Z
                          then [{| due := Z.max (now s) (due t) + 100;
                                   task := FitViewTask |}]
                          else []
                      | FitViewTask => []
                      end) t0 Hne) as (ro & Hro).
        -- rewrite fire_timers. apply Merge_app_left.
           rewrite Hb12. now apply Merge_join.
        -- lia.
        -- exists (task t :: ro). now constructor.
      * (* a callback of the reveal: it is the first one pending *)
        destruct eds as [|e eds]; [congruence|].
        cbn [revealTimers] in Hb12.
        destruct b1 as [|x b1].
        -- cbn in Hb12. injection Hb12 as <- <-.
           pose proof (Merge_join _ _ _ _ _ _ H1 H2) as H12.
           cbn [app] in H12.
           destruct eds as [|e' eds].
           ++ (* the last edge *)
              cbn [revealTimers map task app length] in *.
              destruct (loop_merge_fitView fuel
                          (fire {| due := t0 + Z.of_nat i * 100;
                                   task := RevealEdge e i (i + 1) |}
                                (pre ++ post) s)
                          (a1 ++ a2)
                          {| due := Z.max (now s) (t0 + Z.of_nat i * 100) + 100;
                             task := FitViewTask |} eq_refl)
                as (ro & Hro).
              ** rewrite fire_timers. cbn [task due].
                 replace (Z.of_nat i =? Z.of_nat (i + 1) - 1)%Z with true
                   by (symmetry; apply Z.eqb_eq; lia).
                 apply (Merge_app_right _ [] _ _ H12).
              ** lia.
              ** exists ro. cbn [length] in Hro. constructor. exact Hro.
           ++ (* an inner edge *)
              destruct (IH (e' :: eds) (S i)
                           (fire {| due := t0 + Z.of_nat i * 100;
                                    task := RevealEdge e i
                                              (i + length (e :: e' :: eds)) |}
                                 (pre ++ post) s)
                           (a1 ++ a2) t0) as (ro & Hro).
              ** discriminate.
              ** rewrite fire_timers. cbn [task due].
                 replace (Z.of_nat i
                          =? Z.of_nat (i + length (e :: e' :: eds)) - 1)%Z
                   with false
                   by (symmetry; apply Z.eqb_neq; cbn [length]; lia).
                 rewrite app_nil_r.
                 replace (S i + length (e' :: eds))%nat
                   with (i + length (e :: e' :: eds))%nat
                   by (cbn [length]; lia).
                 exact H12.
              ** cbn [length] in Hlt |- *. lia.
              ** exists ro.
                 replace (S i + length (e' :: eds))%nat
                   with (i + length (e :: e' :: eds))%nat in Hro
                   by (cbn [length]; lia).
                 cbn [map task app]. constructor. exact Hro.
        -- (* an earlier timer of the reveal would have run first *)
           exfalso. cbn in Hb12. injection Hb12 as <- Htl.
           pose proof (Merge_In_right _ _ _ _ H1 (or_introl eq_refl)) as Hx.
           rewrite List.Forall_forall in Hpre. specialize (Hpre _ Hx).
           match type of Htl with
           | revealTimers ?t1 ?j ?len ?l = _ =>
               assert (Hin : In t (revealTimers t1 j len l))
                 by (rewrite Htl; apply in_or_app; right; now left);
               pose proof (revealTimers_later t1 j len l
                             (t0 + Z.of_nat (S i) * 100)%Z ltac:(lia))
                 as Hlater
           end.
           rewrite List.Forall_forall in Hlater. specialize (Hlater _ Hin).
           cbn [due] in Hpre. lia.
    + apply popTimer_None in E. rewrite E in HM.
      apply Merge_nil_inv in HM. destruct eds; [congruence|].
      now destruct HM.
Qed.

Lemma revealTasks_imap t0 len eds : forall i,
  map task (revealTimers t0 i len eds)
  = imap (fun k e => RevealEdge e (i + k) len) eds.
Proof.
  induction eds as [|e eds IH]; intros i; cbn [revealTimers imap map task];
    [reflexivity|].
  rewrite (IH (S i)), Nat.add_0_r. f_equal.
  apply imap_ext. intros k x _. cbn. now rewrite !Nat.add_succ_r.
Qed.

Lemma taskEdges_revealTimers t0 i len eds :
  taskEdges (map task (revealTimers t0 i len eds) ++ [FitViewTask]) = eds.
Proof.
  revert i. induction eds as [|e eds IH]; intros i; [reflexivity|].
  cbn [revealTimers map task app]. unfold taskEdges in *.
  cbn [flat_map app]. now rewrite IH.
Qed.

(** C4.  Every call of [handleShowSolution], whatever timers are already
    pending, registers exactly eleven timers, one per reference pair in
    reference order, the [i]-th with the delay [100 * i] ms and inserting
    the edge that realises the [i]-th pair; only the callback of the last
    one registers a [fitView] timer, with a delay of 100 ms.  When all
    timers have run, the callbacks of this call have run in exactly that
    order, the eleven insertions followed by its [fitView] callback (other
    callbacks may have run in between, none of these is left out, repeated
    or moved), the edges hold the eleven edges in reference order among
    those inserted by earlier timers, and [fitView] has been called once
    more than was already owed.  With no other timer pending the run is
    exactly the eleven insertions and then the one [fitView] call. *)
Theorem reveal_schedule (uuid : nat -> string) (s : State) :
  let s1 := handleShowSolution uuid s in
  exists sol,
    length sol = 11%nat /\
    Forall2 (Realises (nodes s1)) sol expectedFlow /\
    timers s1
    = timers s ++
      imap (fun i e => {| due := now s + 100 * Z.of_nat i;
                          task := RevealEdge e i 11 |}) sol /\
    (forall i e st,
        edges (runTask (RevealEdge e i 11) st) = edges st ++ [e] /\
        timers (runTask (RevealEdge e i 11) st)
        = timers st ++
          (if (i =? 10)%nat
           then [{| due := now st + 100; task := FitViewTask |}]
           else [])) /\
    (exists others,
        Merge others
              (imap (fun i e => RevealEdge e i 11) sol ++ [FitViewTask])
              (ranToCompletion s1)) /\
    (exists earlier,
        Merge earlier sol (edges (runToCompletion s1)) /\
        earlier ≡ₚ pendingEdges (timers s)) /\
    fitViews (effects (runToCompletion s1))
    = (fitViews (effects s) + owed (timers s) + 1)%nat /\
    timers (runToCompletion s1) = [] /\
    (timers s = [] ->
     ranToCompletion s1
     = imap (fun i e => RevealEdge e i 11) sol ++ [FitViewTask] /\
     edges (runToCompletion s1) = sol /\
     effects (runToCompletion s1) = effects s ++ [FitView]).
Proof.
  intros s1.
  destruct (handleShowSolution_spec uuid s)
    as (Hn & He & _ & _ & Hnow & Hf & Ht).
  fold s1 in Hn, He, Hnow, Hf, Ht. clearbody s1.
  exists (revealedEdges uuid). split; [reflexivity|].
  split; [rewrite Hn; apply revealed_realise|].
  split; [rewrite Ht; f_equal; apply (revealTimers_imap _ _ _ 0)|].
  split.
  { intros i e st. unfold runTask.
    destruct (Nat.eqb_spec i 10) as [->|Hi].
    - cbn. auto.
    - replace (Z.of_nat i =? Z.of_nat 11 - 1)%Z with false
        by (symmetry; apply Z.eqb_neq; lia).
      cbn. rewrite app_nil_r. split; reflexivity. }
  assert (HM : exists others,
             Merge others
                   (map task (revealTimers (now s) 0 11 (revealedEdges uuid))
                    ++ [FitViewTask])
                   (ranToCompletion s1)).
  { unfold ranToCompletion, traceToCompletion.
    apply (loop_merge_reveal _ (revealedEdges uuid) 0 s1 (timers s) (now s)).
    - discriminate.
    - rewrite Ht. apply Merge_old_first.
    - lia. }
  destruct (loop_drains _ s1 (le_n _)) as (Hq & added & Hadd & Hperm).
  fold (runToCompletion s1) in Hq, Hadd.
  assert (Hedges : edges (runToCompletion s1)
                   = taskEdges (ranToCompletion s1)).
  { unfold runToCompletion, ranToCompletion, traceToCompletion.
    now rewrite loop_edges_ran, He. }
  assert (Htasks : map task (revealTimers (now s) 0 11 (revealedEdges uuid))
                   = imap (fun i e => RevealEdge e i 11) (revealedEdges uuid))
    by (apply (revealTasks_imap (now s) 11 (revealedEdges uuid) 0)).
  split.
  { destruct HM as (others & HM). exists others. rewrite <- Htasks.
    exact HM. }
  split.
  { destruct HM as (others & HM). exists (taskEdges others).
    apply Merge_taskEdges in HM. rewrite taskEdges_revealTimers in HM.
    split; [now rewrite Hedges|].
    apply Merge_perm in HM. rewrite <- Hedges, Hadd, He in HM.
    cbn [app] in HM.
    rewrite Ht, pendingEdges_app, pendingEdges_revealTimers in Hperm.
    rewrite Hperm in HM.
    symmetry. now apply Permutation_app_inv_r in HM. }
  split.
  { destruct (pending_timers_drain s1) as (_ & Hsum).
    rewrite Hq, Hf, Ht, owed_app in Hsum.
    change (owed (revealTimers (now s) 0 11 (revealedEdges uuid)))
      with 1%nat in Hsum.
    cbn [owed fold_right] in Hsum. lia. }
  split; [exact Hq|].
  intros Hidle. rewrite Hidle in Ht. cbn [app] in Ht.
  unfold ranToCompletion, traceToCompletion, runToCompletion.
  destruct (loop_reveal (revealedEdges uuid) 0 s1
              (budget (timers s1)) (now s))
    as (H1 & _ & H3 & _ & H5).
  - discriminate.
  - exact Ht.
  - rewrite Hnow. lia.
  - rewrite Ht. cbn. lia.
  - rewrite H1, H3, H5, He, Hf.
    split; [|split; reflexivity].
    rewrite map_app. unfold revealTrace. rewrite map_map. cbn [map snd].
    reflexivity.
Qed.

(** C4 on a busy queue: a reveal, a reset right away, and a second
    reveal.  The eleven stale insertions of the first reveal and the eleven
    of the second alternate, each group in reference order, and [fitView]
    is called twice in all. *)
Lemma reveal_schedule_after_reset :
  let busy := handleReset (handleShowSolution demoUuid initial) in
  let final :=
    runToCompletion (handleShowSolution (fun k => demoUuid (10 + k)) busy) in
  length (timers busy) = 11%nat /\
  map e_id (edges final)
  = [ "e-0"; "e-0"; "e-1"; "e-1"; "e-2"; "e-2"; "e-3"; "e-3"; "e-4"; "e-4";
      "e-5"; "e-5"; "e-6"; "e-6"; "e-7"; "e-7"; "e-8"; "e-8"; "e-9"; "e-9";
      "e-10"; "e-10" ] /\
  (exists earlier,
      Merge earlier (revealedEdges (fun k => demoUuid (10 + k)))
            (edges final)) /\
  fitViews (effects final) = 2%nat.
Proof.
  intros busy final.
  destruct (reveal_schedule (fun k => demoUuid (10 + k)) busy)
    as (sol & _ & _ & _ & _ & _ & _ & Hfit & _).
  fold final in Hfit.
  split; [reflexivity|]. split; [vm_compute; reflexivity|].
  split; [|rewrite Hfit; vm_compute; reflexivity].
  exists (revealedEdges demoUuid). vm_compute.
  repeat (apply Merge_left; apply Merge_right). apply Merge_nil.
Defined.
